(** * Material composition converter: Wt% <-> At%

    A shallow embedding of the core logic of [02_GUI.py]
    ([check_input_composition], [wt_to_at], [at_to_wt],
    [parse_composition_input]) together with the properties of its
    specification.

    Python [float] arithmetic is kept abstract behind the class [Arith]; it
    is instantiated with IEEE-754 binary64 (Rocq's primitive floats, the
    arithmetic the program really runs on) and with the real numbers (the
    ideal, rounding-free arithmetic the specification appeals to).  The
    built-in [sum] adds floats one after the other up to CPython 3.11 and
    with a compensation from 3.12 on: the arithmetic says which, and the
    binary64 facts below are shown for both.

    The table [ELEMENT_MOLAR_MASS] and Python's [eval] are parameters of the
    functions that use them.  A dict is the list of its items in insertion
    order. *)

From Stdlib Require Import ZArith List Sorted Permutation String Ascii Bool Lia.
From Stdlib Require Import Floats Reals Lra.
Import ListNotations.

Local Open Scope string_scope.
Local Open Scope list_scope.

(** ** Outcomes of a Python call *)

(** The exceptions the core can raise.  [SumError], [MissingElement] and
    [UnrecognizedFormat] are the three [ValueError]s the source raises, told
    apart by their message; [ZeroDivisionError] is what Python's float
    division raises on a zero divisor, [FloatSyntaxError] the [ValueError]
    of [float(text)] on a text that is not a number, and [IOError] what
    loading the table raises on an unreadable resource. *)
Inductive py_error (F : Type) : Type :=
| SumError (total : F)
| MissingElement (element : string)
| UnrecognizedFormat
| ZeroDivisionError
| FloatSyntaxError (text : string)
| IOError.

Arguments SumError {F} total.
Arguments MissingElement {F} element.
Arguments UnrecognizedFormat {F}.
Arguments ZeroDivisionError {F}.
Arguments FloatSyntaxError {F} text.
Arguments IOError {F}.

Inductive result (F A : Type) : Type :=
| Ok (a : A)
| Raise (e : py_error F).

Arguments Ok {F A} a.
Arguments Raise {F A} e.

Definition bind {F A B} (m : result F A) (k : A -> result F B) : result F B :=
  match m with
  | Ok a => k a
  | Raise e => Raise e
  end.

Notation "x <- m ;; k" := (bind m (fun x => k))
  (at level 61, m at next level, right associativity).

(** ** Arithmetic of Python floats *)

(** How the built-in [sum] adds floats: one after the other (CPython up to
    3.11), or with Neumaier's compensation (CPython from 3.12 on). *)
Inductive summation : Type := Plain | Compensated.

Class Arith (F : Type) : Type := {
  f_add : F -> F -> F;
  f_sub : F -> F -> F;
  f_mul : F -> F -> F;
  (** quotient for a non-zero divisor *)
  f_quot : F -> F -> F;
  f_abs : F -> F;
  (** [-x] *)
  f_opp : F -> F;
  (** [x <= y] *)
  f_leb : F -> F -> bool;
  (** [y == 0], the test that makes [x / y] raise *)
  f_is_zero : F -> bool;
  (** neither an infinity nor a NaN *)
  f_is_finite : F -> bool;
  (** the number written [m * 10^-k] in decimal, as [float] reads a text and
      the interpreter a literal *)
  f_decimal : Z -> nat -> F;
  f_summation : summation
}.

Section Numbers.
Context {F : Type} `{Arith F}.

Definition f_zero : F := f_decimal 0 0.
Definition f_hundred : F := f_decimal 100 0.
(** the tolerance [0.01] *)
Definition f_tol : F := f_decimal 1 2.

(** [x / y] *)
Definition py_div (x y : F) : result F F :=
  if f_is_zero y then Raise ZeroDivisionError else Ok (f_quot x y).

(** [sum(xs)] without compensation: left to right, starting from [0] *)
Definition plain_sum (xs : list F) : F := fold_left f_add xs f_zero.

(** The compensated loop of [sum]: [total] is the running sum and [c] the
    running compensation, which is added at the end unless it is zero or not
    finite. *)
Fixpoint compensated_loop (xs : list F) (total c : F) : F :=
  match xs with
  | [] => if negb (f_is_zero c) && f_is_finite c then f_add total c else total
  | x :: rest =>
      let t := f_add total x in
      let c' :=
        if f_leb (f_abs x) (f_abs total)
        then f_add c (f_add (f_sub total t) x)
        else f_add c (f_add (f_sub x t) total) in
      compensated_loop rest t c'
  end.

(** [sum(xs)] with compensation: the first item is added to the integer [0]
    that [sum] starts from, the others are accumulated by the loop *)
Definition compensated_sum (xs : list F) : F :=
  match xs with
  | [] => f_zero
  | x :: rest => compensated_loop rest (f_add f_zero x) f_zero
  end.

(** [sum(xs)] *)
Definition py_sum (xs : list F) : F :=
  match f_summation with
  | Plain => plain_sum xs
  | Compensated => compensated_sum xs
  end.
End Numbers.

(** ** Insertion-ordered dictionaries with string keys *)

Definition dict (V : Type) : Type := list (string * V).

Section Dict.
Context {V : Type}.

(** [d.get(k)] *)
Fixpoint dict_get (d : dict V) (k : string) : option V :=
  match d with
  | [] => None
  | (k', v) :: rest => if String.eqb k' k then Some v else dict_get rest k
  end.

(** [k in d] *)
Definition dict_mem (d : dict V) (k : string) : bool :=
  match dict_get d k with Some _ => true | None => false end.

(** [d[k] = v]: an existing key keeps its position, a new one goes last *)
Fixpoint dict_set (d : dict V) (k : string) (v : V) : dict V :=
  match d with
  | [] => [(k, v)]
  | (k', v') :: rest =>
      if String.eqb k' k then (k', v) :: rest
      else (k', v') :: dict_set rest k v
  end.

Definition dict_keys (d : dict V) : list string := map fst d.
Definition dict_values (d : dict V) : list V := map snd d.

(** The invariant of a Python dict: no key occurs twice. *)
Definition dict_wf (d : dict V) : Prop := NoDup (dict_keys d).
End Dict.

(** ** The converter *)

Section Converter.
Context {F : Type} `{Arith F}.

(** The global [ELEMENT_MOLAR_MASS]. *)
Variable ELEMENT_MOLAR_MASS : dict F.

Definition check_input_composition (comp_dict : dict F) (mode : string)
  : result F unit :=
  let total := py_sum (dict_values comp_dict) in
  if negb (f_leb (f_abs (f_sub total f_hundred)) f_tol)
  then Raise (SumError total)
  else Ok tt.

(** The [for] loop of [wt_to_at], from the items still to visit and the
    [molar_amounts] built so far. *)
Fixpoint wt_to_at_loop (items : list (string * F)) (molar_amounts : dict F)
  : result F (dict F) :=
  match items with
  | [] => Ok molar_amounts
  | (element, wt_percent) :: rest =>
      match dict_get ELEMENT_MOLAR_MASS element with
      | None => Raise (MissingElement element)
      | Some mass =>
          x <- py_div wt_percent mass ;;
          wt_to_at_loop rest (dict_set molar_amounts element x)
      end
  end.

(** [{elem: (val / total) * 100 for elem, val in amounts.items()}] *)
Fixpoint percent_comprehension (items : list (string * F)) (total : F)
  (acc : dict F) : result F (dict F) :=
  match items with
  | [] => Ok acc
  | (elem, val) :: rest =>
      q <- py_div val total ;;
      percent_comprehension rest total (dict_set acc elem (f_mul q f_hundred))
  end.

Definition wt_to_at (wt_dict : dict F) : result F (dict F) :=
  _ <- check_input_composition wt_dict "wt" ;;
  molar_amounts <- wt_to_at_loop wt_dict [] ;;
  let total_moles := py_sum (dict_values molar_amounts) in
  percent_comprehension molar_amounts total_moles [].

(** The [for] loop of [at_to_wt]. *)
Fixpoint at_to_wt_loop (items : list (string * F)) (masses : dict F)
  : result F (dict F) :=
  match items with
  | [] => Ok masses
  | (element, at_percent) :: rest =>
      match dict_get ELEMENT_MOLAR_MASS element with
      | None => Raise (MissingElement element)
      | Some mass =>
          at_to_wt_loop rest (dict_set masses element (f_mul at_percent mass))
      end
  end.

Definition at_to_wt (at_dict : dict F) : result F (dict F) :=
  _ <- check_input_composition at_dict "at" ;;
  masses <- at_to_wt_loop at_dict [] ;;
  let total_mass := py_sum (dict_values masses) in
  percent_comprehension masses total_mass [].
End Converter.

(** ** The specification's formulas

    These two definitions follow the words of the specification, not the
    code: the molar amount of an element is its weight percent over its molar
    mass, its mass contribution is its atomic percent times its molar mass,
    and each output value is the element's share of the total, times 100. *)

Section SpecFormulas.
Context {F : Type} `{Arith F}.
Variable table : dict F.

(** mass of [symbol]; an arbitrary value when the table has none *)
Definition molar_mass (symbol : string) : F :=
  match dict_get table symbol with Some m => m | None => f_zero end.

Definition molar_amount (item : string * F) : F :=
  f_quot (snd item) (molar_mass (fst item)).

Definition mass_contribution (item : string * F) : F :=
  f_mul (snd item) (molar_mass (fst item)).

(** share of [x] in [total], in percent *)
Definition percent_of (total x : F) : F := f_mul (f_quot x total) f_hundred.

Definition shares (amount : string * F -> F) (c : dict F) : dict F :=
  let total := py_sum (map amount c) in
  map (fun item => (fst item, percent_of total (amount item))) c.

Definition weightToAtomic_spec (wt : dict F) : dict F := shares molar_amount wt.
Definition atomicToWeight_spec (at_ : dict F) : dict F := shares mass_contribution at_.

(** every symbol of the composition has an entry in the table *)
Definition all_known (c : dict F) : Prop :=
  Forall (fun k => dict_mem table k = true) (dict_keys c).

(** no symbol of the composition has a zero mass *)
Definition masses_nonzero (c : dict F) : Prop :=
  Forall (fun k => f_is_zero (molar_mass k) = false) (dict_keys c).

(** the composition sums to 100 within the tolerance, as the validator
    computes it *)
Definition sums_to_100 (c : dict F) : Prop :=
  f_leb (f_abs (f_sub (py_sum (dict_values c)) f_hundred)) f_tol = true.
End SpecFormulas.

(** ** Two arithmetics *)

(** *** IEEE-754 binary64, the arithmetic of Python's [float] *)

Definition pow10 (k : nat) : positive := Z.to_pos (10 ^ Z.of_nat k).

(** [p / 10^k], divided exactly and rounded once, to nearest-even. *)
Definition float_of_ratio (p : positive) (k : nat) : float :=
  SF2Prim (SFdiv prec emax (S754_finite false p 0) (S754_finite false (pow10 k) 0)).

Definition float_of_decimal (m : Z) (k : nat) : float :=
  match m with
  | Z0 => PrimFloat.zero
  | Zpos p => float_of_ratio p k
  | Zneg p => PrimFloat.opp (float_of_ratio p k)
  end.

#[export] Instance float_arith : Arith float := {
  f_add := PrimFloat.add;
  f_sub := PrimFloat.sub;
  f_mul := PrimFloat.mul;
  f_quot := PrimFloat.div;
  f_abs := PrimFloat.abs;
  f_opp := PrimFloat.opp;
  f_leb := PrimFloat.leb;
  f_is_zero := PrimFloat.is_zero;
  f_is_finite := PrimFloat.is_finite;
  f_decimal := float_of_decimal;
  f_summation := Plain
}.

(** the same arithmetic under an interpreter whose [sum] compensates *)
Definition float_arith_compensated : Arith float := {|
  f_add := PrimFloat.add;
  f_sub := PrimFloat.sub;
  f_mul := PrimFloat.mul;
  f_quot := PrimFloat.div;
  f_abs := PrimFloat.abs;
  f_opp := PrimFloat.opp;
  f_leb := PrimFloat.leb;
  f_is_zero := PrimFloat.is_zero;
  f_is_finite := PrimFloat.is_finite;
  f_decimal := float_of_decimal;
  f_summation := Compensated
|}.

(** binary64 under either interpreter *)
Definition float_arithmetics : list (Arith float) :=
  [float_arith; float_arith_compensated].

(** *** The real numbers, the ideal arithmetic

    Without rounding the compensation of [sum] is always zero, so the plain
    sum stands for both algorithms. *)

Definition real_of_decimal (m : Z) (k : nat) : R := (IZR m / IZR (10 ^ Z.of_nat k))%R.

#[export] Instance real_arith : Arith R := {
  f_add := Rplus;
  f_sub := Rminus;
  f_mul := Rmult;
  f_quot := Rdiv;
  f_abs := Rabs;
  f_opp := Ropp;
  f_leb := fun x y => if Rle_dec x y then true else false;
  f_is_zero := fun y => if Req_dec_T y 0%R then true else false;
  f_is_finite := fun _ => true;
  f_decimal := real_of_decimal;
  f_summation := Plain
}.

(** ** The built-in table

    The dictionary [get_element_atomic_masses] returns when the JSON resource
    is absent: H to Zn. *)

Section Fallback.
Context {F : Type} `{Arith F}.

Definition fallback_masses : dict F :=
  [ ("H", f_decimal 1008 3); ("He", f_decimal 40026 4); ("Li", f_decimal 694 2);
    ("Be", f_decimal 90122 4); ("B", f_decimal 1081 2); ("C", f_decimal 12011 3);
    ("N", f_decimal 14007 3); ("O", f_decimal 15999 3); ("F", f_decimal 18998 3);
    ("Ne", f_decimal 20180 3); ("Na", f_decimal 22990 3); ("Mg", f_decimal 24305 3);
    ("Al", f_decimal 26982 3); ("Si", f_decimal 28085 3); ("P", f_decimal 30974 3);
    ("S", f_decimal 3206 2); ("Cl", f_decimal 3545 2); ("Ar", f_decimal 39948 3);
    ("K", f_decimal 39098 3); ("Ca", f_decimal 40078 3); ("Sc", f_decimal 44956 3);
    ("Ti", f_decimal 47867 3); ("V", f_decimal 50942 3); ("Cr", f_decimal 51996 3);
    ("Mn", f_decimal 54938 3); ("Fe", f_decimal 55845 3); ("Co", f_decimal 58933 3);
    ("Ni", f_decimal 58693 3); ("Cu", f_decimal 63546 3); ("Zn", f_decimal 6538 2) ].

(** What the file system holds at the resource's path: nothing, a file that
    cannot be read as JSON, or a file with a table. *)
Inductive resource : Type :=
| Absent
| Unreadable
| Holds (masses : dict F).

Definition get_element_atomic_masses (file : resource) : result F (dict F) :=
  match file with
  | Absent => Ok fallback_masses
  | Unreadable => Raise IOError
  | Holds masses => Ok masses
  end.
End Fallback.

(** ** Text

    A Python [str] is modelled by the list of its characters, for strings whose
    code points are below 256. *)

Definition text : Type := list ascii.

Definition code (c : ascii) : N := N_of_ascii c.

Definition in_range (lo hi : N) (c : ascii) : bool :=
  (lo <=? code c)%N && (code c <=? hi)%N.

(** [[A-Za-z]], [[a-z]], [\d] *)
Definition is_upper (c : ascii) : bool := in_range 65 90 c.
Definition is_lower (c : ascii) : bool := in_range 97 122 c.
Definition is_alpha (c : ascii) : bool := is_upper c || is_lower c.
Definition is_digit (c : ascii) : bool := in_range 48 57 c.

(** [\s] and the characters [str.strip()] removes: tab to carriage return,
    the four separators FS to US, the space, NEL and the no-break space. *)
Definition is_space (c : ascii) : bool :=
  in_range 9 13 c || in_range 28 32 c || (code c =? 133)%N || (code c =? 160)%N.

(** the two quotes, ['] and the double quote *)
Definition is_quote (c : ascii) : bool := (code c =? 39)%N || (code c =? 34)%N.
(** [[:=]] *)
Definition is_separator (c : ascii) : bool := (code c =? 58)%N || (code c =? 61)%N.
Definition is_dot (c : ascii) : bool := (code c =? 46)%N.

Fixpoint lstrip (s : text) : text :=
  match s with
  | c :: s' => if is_space c then lstrip s' else s
  | [] => []
  end.

Definition rstrip (s : text) : text := rev (lstrip (rev s)).

(** [s.strip()] *)
Definition strip (s : text) : text := rstrip (lstrip s).

(** [s.startswith(c)] and [s.endswith(c)] for a one-character [c] *)
Definition startswith (s : text) (c : ascii) : bool :=
  match s with
  | c' :: _ => Ascii.eqb c' c
  | [] => false
  end.

Definition endswith (s : text) (c : ascii) : bool := startswith (rev s) c.

(** ** Regular expressions

    The fragment of Python's [re] the source's pattern is written in, with the
    backtracking semantics of [re]: alternatives are tried greedy first, and
    the first way to match the whole pattern wins. *)

Inductive regex : Type :=
| Cls (p : ascii -> bool)        (* one character of a class *)
| Opt (r : regex)                (* [r?] *)
| Star (p : ascii -> bool)       (* [c*] for a class [c] *)
| Seq (r1 r2 : regex)
| Group (r : regex).             (* a capturing group *)

(** [c+] *)
Definition Plus (p : ascii -> bool) : regex := Seq (Cls p) (Star p).

(** [c*], greedy: the longest run of the class first, then shorter ones while
    the continuation [k] refuses what is left. *)
Fixpoint match_star {A : Type} (p : ascii -> bool) (k : text -> option A)
  (s : text) : option A :=
  match s with
  | c :: s' =>
      if p c then
        match match_star p k s' with
        | Some a => Some a
        | None => k s
        end
      else k s
  | [] => k s
  end.

(** [match_at r s caps k] matches [r] at the start of [s] and hands what is
    left of [s], with the groups captured so far, to the continuation [k];
    when [k] fails, the next alternative of [r] is tried. *)
Fixpoint match_at {A : Type} (r : regex) (s : text) (caps : list text)
  (k : text -> list text -> option A) : option A :=
  match r with
  | Cls p =>
      match s with
      | c :: s' => if p c then k s' caps else None
      | [] => None
      end
  | Opt r1 =>
      match match_at r1 s caps k with
      | Some a => Some a
      | None => k s caps
      end
  | Star p => match_star p (fun s' => k s' caps) s
  | Seq r1 r2 => match_at r1 s caps (fun s' caps' => match_at r2 s' caps' k)
  | Group r1 =>
      match_at r1 s caps
        (fun s' caps' => k s' (caps' ++ [firstn (List.length s - List.length s') s]))
  end.

(** A match of [r] at the start of [s]: the number of characters matched and
    the groups. *)
Definition match_here (r : regex) (s : text) : option (nat * list text) :=
  match_at r s [] (fun s' caps => Some (List.length s - List.length s', caps)).

Record re_match : Type := {
  m_start : nat;
  m_stop : nat;
  m_groups : list text
}.

(** The scan of [re.finditer]: leftmost match first, the search resuming
    where the match stopped (one character further after an empty match). *)
Fixpoint scan (r : regex) (fuel pos : nat) (s : text) : list re_match :=
  match fuel with
  | O => []
  | S fuel' =>
      match match_here r s, s with
      | Some (n, caps), _ =>
          {| m_start := pos; m_stop := pos + n; m_groups := caps |}
            :: match s with
               | [] => []
               | _ => scan r fuel' (pos + Nat.max 1 n) (skipn (Nat.max 1 n) s)
               end
      | None, _ :: s' => scan r fuel' (pos + 1) s'
      | None, [] => []
      end
  end.

Definition finditer (r : regex) (s : text) : list re_match :=
  scan r (S (List.length s)) 0 s.

(** [re.findall(r, s)] for a pattern with two groups: the pairs of groups. *)
Definition findall (r : regex) (s : text) : list (text * text) :=
  map (fun m => (nth 0 (m_groups m) [], nth 1 (m_groups m) [])) (finditer r s).

(** The source's pattern: an optional quote, group 1 [[A-Za-z][a-z]?], an
    optional quote, [\s*[:=]\s*], group 2 [\d+\.?\d*]. *)
Definition pattern : regex :=
  Seq (Opt (Cls is_quote))
  (Seq (Group (Seq (Cls is_alpha) (Opt (Cls is_lower))))
  (Seq (Opt (Cls is_quote))
  (Seq (Star is_space)
  (Seq (Cls is_separator)
  (Seq (Star is_space)
       (Group (Seq (Plus is_digit) (Seq (Opt (Cls is_dot)) (Star is_digit))))))))).

(** ** The parser *)

(** The Python values a composition literal is made of. *)
#[warnings="-register-all"]
Inductive pyval (F : Type) : Type :=
| PyInt (n : Z)
| PyFloat (x : F)
| PyStr (s : string)
| PyDict (items : list (pyval F * pyval F)).

Arguments PyInt {F} n.
Arguments PyFloat {F} x.
Arguments PyStr {F} s.
Arguments PyDict {F} items.

(** the items of a Python dict, in insertion order *)
Definition pydict (F : Type) : Type := list (pyval F * pyval F).

(** longest prefix of characters of a class, and the rest *)
Fixpoint span (p : ascii -> bool) (s : text) : text * text :=
  match s with
  | c :: s' =>
      if p c then let (a, b) := span p s' in (c :: a, b) else ([], s)
  | [] => ([], [])
  end.

Definition digit_value (c : ascii) : Z := Z.of_N (code c) - 48.

(** the number a string of digits writes *)
Definition Z_of_digits (ds : text) : Z :=
  fold_left (fun acc c => 10 * acc + digit_value c)%Z ds 0%Z.

Section Parser.
Context {F : Type} `{Arith F}.

(** [float(val)] on the texts of the shape [\d+\.?\d*]; any other text is
    answered with the [ValueError] ([None]), which is more than Python
    refuses. *)
Definition py_float (val : text) : option F :=
  let (int_part, r) := span is_digit val in
  match int_part, r with
  | [], _ => None
  | _, [] => Some (f_decimal (Z_of_digits int_part) 0)
  | _, c :: r' =>
      let (frac_part, r'') := span is_digit r' in
      if is_dot c then
        match r'' with
        | [] => Some (f_decimal (Z_of_digits (int_part ++ frac_part))
                                (List.length frac_part))
        | _ => None
        end
      else None
  end.

(** Python's [eval]: [None] when it raises. *)
Variable py_eval : text -> option (pyval F).

(** The [try] block: the dict [eval] returned, or [None] when control
    leaves the block without a [return], normally or through [except]. *)
Definition literal_stage (user_str : text) : option (pydict F) :=
  let clean_str := strip user_str in
  if startswith clean_str "{" && endswith clean_str "}" then
    match py_eval clean_str with
    | Some (PyDict result) => Some result
    | _ => None
    end
  else None.

(** The loop [for elem, val in matches: comp_dict[elem] = float(val)]. *)
Fixpoint fill_comp_dict (matches : list (text * text)) (comp_dict : dict F)
  : result F (dict F) :=
  match matches with
  | [] => Ok comp_dict
  | (elem, val) :: rest =>
      match py_float val with
      | Some x => fill_comp_dict rest (dict_set comp_dict (string_of_list_ascii elem) x)
      | None => Raise (FloatSyntaxError (string_of_list_ascii val))
      end
  end.

(** a [str -> float] dict as the Python object it is *)
Definition as_pydict (d : dict F) : pydict F :=
  map (fun kv => (PyStr (fst kv), PyFloat (snd kv))) d.

(** The code after the [try] block. *)
Definition token_scan_stage (user_str : text) : result F (pydict F) :=
  let matches := findall pattern user_str in
  match matches with
  | [] => Raise UnrecognizedFormat
  | _ => comp_dict <- fill_comp_dict matches [] ;; Ok (as_pydict comp_dict)
  end.

Definition parse_composition_input (user_str : text) : result F (pydict F) :=
  match literal_stage user_str with
  | Some result => Ok result
  | None => token_scan_stage user_str
  end.
End Parser.

(** ** An evaluator for composition literals

    [eval_display] stands for [eval] on the strings of the examples.  It
    evaluates the dict displays [{key: value, ...}] whose keys are plain
    string literals or integers and whose values are signed decimal numbers,
    and answers [None] on every other string; among these are the displays
    over bare names such as [{Fe: 98.0}], on which [eval] raises
    [NameError].  The properties stated for every [py_eval] do not depend
    on it. *)

Section EvalDisplay.
Context {F : Type} `{Arith F}.

(** blanks between the tokens of a display *)
Definition is_blank (c : ascii) : bool :=
  (code c =? 32)%N || (code c =? 9)%N || (code c =? 10)%N
  || (code c =? 13)%N || (code c =? 12)%N.

Fixpoint skip_blanks (s : text) : text :=
  match s with
  | c :: s' => if is_blank c then skip_blanks s' else s
  | [] => []
  end.

(** the characters of a string literal up to the closing quote [q]; no
    escapes, no line breaks *)
Fixpoint read_quoted (q : ascii) (s : text) : option (text * text) :=
  match s with
  | [] => None
  | c :: s' =>
      if Ascii.eqb c q then Some ([], s')
      else if (code c =? 92)%N || (code c =? 10)%N || (code c =? 13)%N then None
      else match read_quoted q s' with
           | Some (body, rest) => Some (c :: body, rest)
           | None => None
           end
  end.

(** an unsigned number: an integer (without a leading zero, unless it is
    all zeros) or a decimal with a point *)
Definition read_number (negative : bool) (s : text) : option (pyval F * text) :=
  let sign := if negative then (-1)%Z else 1%Z in
  let finish (x : F) := if negative then f_opp x else x in
  let (int_part, r) := span is_digit s in
  match r with
  | c :: r' =>
      if is_dot c then
        let (frac_part, r'') := span is_digit r' in
        match int_part ++ frac_part with
        | [] => None
        | ds => Some (PyFloat (finish (f_decimal (Z_of_digits ds) (List.length frac_part))), r'')
        end
      else
        match int_part with
        | [] => None
        | d :: ds =>
            if (code d =? 48)%N && negb (forallb (fun c => (code c =? 48)%N) ds)
            then None
            else Some (PyInt (sign * Z_of_digits int_part), r)
        end
  | [] =>
      match int_part with
      | [] => None
      | d :: ds =>
          if (code d =? 48)%N && negb (forallb (fun c => (code c =? 48)%N) ds)
          then None
          else Some (PyInt (sign * Z_of_digits int_part), r)
      end
  end.

Definition read_key (s : text) : option (pyval F * text) :=
  match s with
  | c :: s' =>
      if is_quote c then
        match read_quoted c s' with
        | Some (body, rest) => Some (PyStr (string_of_list_ascii body), rest)
        | None => None
        end
      else
        match read_number false s with
        | Some (PyInt n, rest) => Some (PyInt n, rest)
        | _ => None
        end
  | [] => None
  end.

Definition read_value (s : text) : option (pyval F * text) :=
  match s with
  | c :: s' =>
      if (code c =? 45)%N then read_number true (skip_blanks s')
      else if (code c =? 43)%N then read_number false (skip_blanks s')
      else read_number false s
  | [] => None
  end.

(** [==] on the keys of a display *)
Definition key_eqb (a b : pyval F) : bool :=
  match a, b with
  | PyInt m, PyInt n => (m =? n)%Z
  | PyStr s, PyStr t => String.eqb s t
  | _, _ => false
  end.

Fixpoint pydict_set (d : pydict F) (k v : pyval F) : pydict F :=
  match d with
  | [] => [(k, v)]
  | (k', v') :: rest =>
      if key_eqb k' k then (k', v) :: rest
      else (k', v') :: pydict_set rest k v
  end.

(** the items of a display, after the opening brace or a comma *)
Fixpoint read_items (fuel : nat) (s : text) (acc : pydict F) : option (pydict F) :=
  match fuel with
  | O => None
  | S fuel' =>
      match read_key (skip_blanks s) with
      | None => None
      | Some (k, r1) =>
          match skip_blanks r1 with
          | c :: r2 =>
              if (code c =? 58)%N then
                match read_value (skip_blanks r2) with
                | None => None
                | Some (v, r3) =>
                    let acc' := pydict_set acc k v in
                    match skip_blanks r3 with
                    | [c'] => if (code c' =? 125)%N then Some acc' else None
                    | c' :: r4 =>
                        if (code c' =? 44)%N then
                          match skip_blanks r4 with
                          | [c''] => if (code c'' =? 125)%N then Some acc' else None
                          | _ => read_items fuel' r4 acc'
                          end
                        else None
                    | [] => None
                    end
                end
              else None
          | [] => None
          end
      end
  end.

Definition eval_display (s : text) : option (pyval F) :=
  match s with
  | c :: s' =>
      if (code c =? 123)%N then
        match skip_blanks s' with
        | [c'] => if (code c' =? 125)%N then Some (PyDict []) else None
        | _ =>
            match read_items (List.length s) s' [] with
            | Some items => Some (PyDict items)
            | None => None
            end
        end
      else None
  | [] => None
  end.
End EvalDisplay.

(** ** Concrete inputs

    The table and the compositions the examples below run on, in binary64. *)

Definition float_table : dict float := fallback_masses.

(** [{"Fe": 98.0, "C": 2.0}] *)
Definition steel : dict float :=
  [("Fe", f_decimal 980 1); ("C", f_decimal 20 1)].

(** [{"Fe": 90.0, "C": 5.0}] *)
Definition short_sum : dict float :=
  [("Fe", f_decimal 900 1); ("C", f_decimal 50 1)].

(** [{"Fe": 50.0, "Xx": 50.0}] *)
Definition unknown_symbol : dict float :=
  [("Fe", f_decimal 500 1); ("Xx", f_decimal 500 1)].

(** [{"Fe": 127.39640625, "C": -27.40009375}]: the two molar amounts are
    2.28125 and -2.28125. *)
Definition cancelling : dict float :=
  [("Fe", f_decimal 12739640625 8); ("C", f_decimal (-2740009375) 8)].

(** [{"Fe": 98.005, "C": 2.0}], which sums to 100.005 *)
Definition off_by_5e_3 : dict float :=
  [("Fe", f_decimal 98005 3); ("C", f_decimal 20 1)].


(** The same table and the composition [{"Fe": 98.0, "C": 2.0}] in exact
    arithmetic. *)
Definition real_table : dict R := fallback_masses.

Definition real_steel : dict R :=
  [("Fe", f_decimal 980 1); ("C", f_decimal 20 1)].


(** [{"Fe": 127.39640625, "C": -27.40009374999999}]: the molar amounts
    cancel up to the last bits. *)
Definition near_cancelling : dict float :=
  [("Fe", f_decimal 12739640625 8); ("C", f_decimal (-2740009374999999) 14)].

(** what a round trip makes of a composition: every value times
    100 / (the sum of the values) *)
Definition rescaled (c : dict R) : dict R :=
  map (fun it => (fst it, (snd it * 100 / py_sum (dict_values c))%R)) c.


(** ** What a regular expression matches

    [lang r pre caps caps'] : [r] matches exactly the text [pre], and
    doing so extends the captured groups [caps] to [caps']. *)

Inductive lang : regex -> text -> list text -> list text -> Prop :=
| L_cls p c caps : p c = true -> lang (Cls p) [c] caps caps
| L_opt_some r pre caps caps' : lang r pre caps caps' -> lang (Opt r) pre caps caps'
| L_opt_none r caps : lang (Opt r) [] caps caps
| L_star p pre caps : forallb p pre = true -> lang (Star p) pre caps caps
| L_seq r1 r2 pre1 pre2 caps caps1 caps2 :
    lang r1 pre1 caps caps1 -> lang r2 pre2 caps1 caps2 ->
    lang (Seq r1 r2) (pre1 ++ pre2) caps caps2
| L_group r pre caps caps' :
    lang r pre caps caps' -> lang (Group r) pre caps (caps' ++ [pre]).

(** ** The token form, in the specification's words *)

(** a symbol: one letter, or a letter and a lowercase letter *)
Definition symbolb (sym : text) : bool :=
  match sym with
  | [a] => is_alpha a
  | [a; b] => is_alpha a && is_lower b
  | _ => false
  end.

(** a non-negative decimal: digits, then possibly a point and more digits *)
Definition numberb (num : text) : bool :=
  let (int_part, r) := span is_digit num in
  match int_part, r with
  | [], _ => false
  | _, [] => true
  | _, c :: frac_part => is_dot c && forallb is_digit frac_part
  end.

(** what may precede the symbol: nothing or one quote *)
Definition leadb (lead : text) : bool :=
  match lead with
  | [] => true
  | [q] => is_quote q
  | _ => false
  end.

(** what links the symbol to the number: possibly a quote, blanks, the
    separator [:] or [=], blanks *)
Definition linkb (link : text) : bool :=
  let unquoted :=
    match link with
    | q :: l => if is_quote q then l else link
    | [] => []
    end in
  match lstrip unquoted with
  | sep :: l => is_separator sep && forallb is_space l
  | [] => false
  end.

(** The matches of the scan as the mapping they are collected into. *)
Section Collect.
Context {F : Type} `{Arith F}.

(** the value a decimal writes *)
Definition decimal_value (num : text) : F :=
  let (int_part, r) := span is_digit num in
  let frac_part := tl r in
  f_decimal (Z_of_digits (int_part ++ frac_part)) (List.length frac_part).

(** each pair is written into the mapping in turn: a new symbol goes last, a
    symbol seen before keeps its place and takes the new value *)
Definition collect_into (d : dict F) (matches : list (text * text)) : dict F :=
  fold_left
    (fun d m => dict_set d (string_of_list_ascii (fst m)) (decimal_value (snd m)))
    matches d.

Definition collect (matches : list (text * text)) : dict F := collect_into [] matches.
End Collect.

(** the symbols of a list in the order of their first appearance, after
    those already [seen] *)
Fixpoint first_occurrences (ks : list string) (seen : list string) : list string :=
  match ks with
  | [] => seen
  | k :: rest =>
      if existsb (String.eqb k) seen then first_occurrences rest seen
      else first_occurrences rest (seen ++ [k])
  end.

(** the symbol of a pair of groups, as a dictionary key *)
Definition symbol_of (m : text * text) : string := string_of_list_ascii (fst m).

(** ** Input strings of the examples *)

Definition double_quote : string := String (ascii_of_nat 34) EmptyString.

(** [Fe: 98.0, C: 2.0] *)
Definition scan_input : text := list_ascii_of_string "Fe: 98.0, C: 2.0".

(** [gibberish] *)
Definition gibberish : text := list_ascii_of_string "gibberish".

(** the literal [{"Fe": 98.0, "C": 2.0}] *)
Definition literal_input : text :=
  list_ascii_of_string
    ("{" ++ double_quote ++ "Fe" ++ double_quote ++ ": 98.0, "
         ++ double_quote ++ "C" ++ double_quote ++ ": 2.0}")%string.

(** the literal [{"Fe": 98, "C": 2}], with integers *)
Definition integer_literal_input : text :=
  list_ascii_of_string
    ("{" ++ double_quote ++ "Fe" ++ double_quote ++ ": 98, "
         ++ double_quote ++ "C" ++ double_quote ++ ": 2}")%string.

(** the literal [{1: 100.0}], with an integer key *)
Definition integer_key_input : text := list_ascii_of_string "{1: 100.0}".

(** the empty literal [{}] *)
Definition empty_literal_input : text := list_ascii_of_string "{}".

(** [{Fe: 98.0, C: 2.0}]: braces around bare names, on which [eval] raises
    [NameError] *)
Definition bare_names_input : text := list_ascii_of_string "{Fe: 98.0, C: 2.0}".

(** [reported_in r pos t m]: [m] is a match of [r] at its start, some [i]
    characters into the text [t] that is scanned from position [pos]. *)
Definition reported_in (r : regex) (pos : nat) (t : text) (m : re_match) : Prop :=
  exists i, m_start m = pos + i /\ i <= List.length t
            /\ m_stop m <= pos + List.length t
            /\ match_here r (skipn i t) = Some (m_stop m - m_start m, m_groups m).


(** ** Further inputs *)

(** a composition with every value multiplied by [factor] *)
Definition scaled (factor : R) (c : dict R) : dict R :=
  map (fun it => (fst it, (factor * snd it)%R)) c.

(** a table in which Og carries the placeholder mass 0.0, and
    [{"Fe": 50.0, "Og": 50.0}] *)
Definition placeholder_table : dict float :=
  [("Fe", f_decimal 55845 3); ("Og", f_decimal 0 1)].

Definition half_placeholder : dict float :=
  [("Fe", f_decimal 500 1); ("Og", f_decimal 500 1)].


(** what is left of a text after an optional point and the digits that
    follow *)
Definition number_rest (s : text) : text :=
  match s with
  | c :: s' => if is_dot c then snd (span is_digit s') else snd (span is_digit s)
  | [] => []
  end.


(** ** The generator of the table

    [generate_and_save_data] of [01_get_atomic_weight.py], as the dictionary
    it hands to [json.dump].  The [mendeleev] library is a parameter:
    [element z] is the element of atomic number [z], or [None] when the
    lookup raises. *)

Section Generator.
Context {F : Type} `{Arith F}.

(** The [mass] attribute of an element: [None], a number, or an interval
    given as a sequence of numbers. *)
Inductive mass_attr : Type :=
| NoMass
| MassValue (m : F)
| MassInterval (ms : list F).

Record element_data : Type := {
  el_symbol : string;
  el_mass : mass_attr;
  el_mass_number : option Z
}.

(** [float(n)] for an integer [n]: the float nearest to [n], or [None] for
    the [OverflowError] that [float] raises when [n] is too large for one. *)
Definition float_of_int (n : Z) : option F :=
  let x := f_decimal n 0 in
  if f_is_finite x then Some x else None.

(** The value of [valid_mass] when it is stored, or [None] when computing it
    raises: an empty interval falls back to [float(el.mass_number)], which
    raises on [None], and [float(el.mass_number)] raises on an integer that
    overflows. *)
Definition valid_mass (el : element_data) : option F :=
  match el_mass el with
  | MassInterval (m0 :: _) => Some m0
  | MassInterval [] =>
      match el_mass_number el with
      | Some n => float_of_int n
      | None => None
      end
  | MassValue m => Some m
  | NoMass =>
      match el_mass_number el with
      | Some n => float_of_int n
      | None => Some (f_decimal 0 1)
      end
  end.

(** The loop over the atomic numbers: an element whose lookup or whose mass
    raises is reported and skipped. *)
Fixpoint generate_loop (element : nat -> option element_data) (zs : list nat)
  (mass_dict : dict F) : dict F :=
  match zs with
  | [] => mass_dict
  | z :: rest =>
      match element z with
      | Some el =>
          match valid_mass el with
          | Some m => generate_loop element rest (dict_set mass_dict (el_symbol el) m)
          | None => generate_loop element rest mass_dict
          end
      | None => generate_loop element rest mass_dict
      end
  end.

(** [for z in range(1, 119)] *)
Definition generate_and_save_data (element : nat -> option element_data) : dict F :=
  generate_loop element (seq 1 118) [].

(** the entry the loop writes for the atomic number [z], if any *)
Definition entry_of (element : nat -> option element_data) (z : nat)
  : option (string * F) :=
  match element z with
  | Some el =>
      match valid_mass el with
      | Some m => Some (el_symbol el, m)
      | None => None
      end
  | None => None
  end.
End Generator.

(** A library with five elements, one for each way a mass is found: H with a
    mass, He with a mass number only, Li with an interval, Be with an empty
    interval and no mass number (its mass raises), B with no data at all. *)
Definition five_elements (z : nat) : option (@element_data float) :=
  match z with
  | 1%nat => Some {| el_symbol := "H"; el_mass := MassValue (f_decimal 1008 3);
                     el_mass_number := Some 1%Z |}
  | 2%nat => Some {| el_symbol := "He"; el_mass := NoMass; el_mass_number := Some 4%Z |}
  | 3%nat => Some {| el_symbol := "Li";
                     el_mass := MassInterval [f_decimal 6938 3; f_decimal 6997 3];
                     el_mass_number := Some 7%Z |}
  | 4%nat => Some {| el_symbol := "Be"; el_mass := MassInterval [];
                     el_mass_number := None |}
  | 5%nat => Some {| el_symbol := "B"; el_mass := NoMass; el_mass_number := None |}
  | _ => None
  end.


(** ** Inputs on which the conversions raise *)

(** [{"Og": 50.0, "Xx": 50.0}]: with [placeholder_table], a symbol of mass
    0.0 comes before a symbol that has no entry *)
Definition zero_mass_then_unknown : dict float :=
  [("Og", f_decimal 500 1); ("Xx", f_decimal 500 1)].






(** ** The longest decimal *)

(** the longest decimal a text starts with: its leading digits and, when a
    point follows them, the point and the digits after it *)
Definition longest_number (s : text) : text :=
  let (int_part, r) := span is_digit s in
  match r with
  | c :: r' => if is_dot c then int_part ++ c :: fst (span is_digit r') else int_part
  | [] => int_part
  end.

(** [Fe: 97.5, C: 2.5] *)
Definition fraction_input : text := list_ascii_of_string "Fe: 97.5, C: 2.5".

(** A library in which the mass numbers of He and Li are too large for a
    float: He has no mass, Li an empty interval. *)
Definition overflowing_elements (z : nat) : option (@element_data float) :=
  match z with
  | 1%nat => Some {| el_symbol := "H"; el_mass := MassValue (f_decimal 1008 3);
                     el_mass_number := Some 1%Z |}
  | 2%nat => Some {| el_symbol := "He"; el_mass := NoMass;
                     el_mass_number := Some (10 ^ 400)%Z |}
  | 3%nat => Some {| el_symbol := "Li"; el_mass := MassInterval [];
                     el_mass_number := Some (10 ^ 400)%Z |}
  | _ => None
  end.


(** * Properties *)

(** ** Dictionaries *)

Section DictFacts.
Context {V : Type}.

Lemma dict_get_none (d : dict V) (k : string) :
  dict_get d k = None <-> ~ In k (dict_keys d).
Proof.
  induction d as [|[k' v'] d IH]; simpl.
  - tauto.
  - destruct (String.eqb_spec k' k) as [->|Hne].
    + split; [discriminate | intros Hn; exfalso; apply Hn; now left].
    + rewrite IH. split.
      * intros Hn [Heq|Hin]; [now apply Hne | now apply Hn].
      * intros Hn Hin. apply Hn. now right.
Qed.

Lemma dict_mem_true (d : dict V) (k : string) :
  dict_mem d k = true <-> exists v, dict_get d k = Some v.
Proof.
  unfold dict_mem. destruct (dict_get d k) as [v|].
  - split; [intros _; now exists v | reflexivity].
  - split; [discriminate | intros [v Hv]; discriminate].
Qed.

Lemma dict_set_fresh (d : dict V) (k : string) (v : V) :
  ~ In k (dict_keys d) -> dict_set d k v = d ++ [(k, v)].
Proof.
  induction d as [|[k' v'] d IH]; simpl; intros Hn.
  - reflexivity.
  - destruct (String.eqb_spec k' k) as [->|Hne].
    + exfalso. apply Hn. now left.
    + rewrite IH; [reflexivity|]. intros Hin. apply Hn. now right.
Qed.

Lemma dict_keys_app (d1 d2 : dict V) :
  dict_keys (d1 ++ d2) = dict_keys d1 ++ dict_keys d2.
Proof. unfold dict_keys. apply map_app. Qed.

(** Moving the head of the pending items to the end of the accumulator
    keeps keys distinct. *)
Lemma nodup_shift (acc : dict V) (k : string) (v : V) (rest : dict V) :
  NoDup (dict_keys acc ++ dict_keys ((k, v) :: rest)) ->
  ~ In k (dict_keys acc) /\
  forall v', NoDup (dict_keys (acc ++ [(k, v')]) ++ dict_keys rest).
Proof.
  simpl. intros Hnd. split.
  - apply NoDup_remove_2 in Hnd. intros Hin. apply Hnd.
    apply in_or_app. now left.
  - intros v'. rewrite dict_keys_app. simpl. rewrite <- app_assoc. exact Hnd.
Qed.
End DictFacts.

(** ** The converter, in any arithmetic *)

Section ConverterFacts.
Context {F : Type} `{Arith F}.
Variable table : dict F.

Lemma py_div_ok (x y : F) : f_is_zero y = false -> py_div x y = Ok (f_quot x y).
Proof. unfold py_div. now intros ->. Qed.

Lemma known_mass (k : string) :
  dict_mem table k = true -> dict_get table k = Some (molar_mass table k).
Proof.
  unfold dict_mem, molar_mass. now destruct (dict_get table k).
Qed.

Lemma wt_to_at_loop_ok (items acc : dict F) :
  NoDup (dict_keys acc ++ dict_keys items) ->
  all_known table items -> masses_nonzero table items ->
  wt_to_at_loop table items acc
  = Ok (acc ++ map (fun it => (fst it, molar_amount table it)) items).
Proof.
  revert acc. induction items as [|[k v] rest IH]; intros acc Hnd Hk Hm; simpl.
  - now rewrite app_nil_r.
  - inversion Hk as [|? ? Hk1 Hk2]; subst. inversion Hm as [|? ? Hm1 Hm2]; subst.
    destruct (nodup_shift _ _ _ _ Hnd) as [Hfresh Hnd'].
    rewrite (known_mass _ Hk1), (py_div_ok _ _ Hm1). simpl.
    rewrite (dict_set_fresh _ _ _ Hfresh), (IH _ (Hnd' _) Hk2 Hm2).
    now rewrite <- app_assoc.
Qed.

Lemma at_to_wt_loop_ok (items acc : dict F) :
  NoDup (dict_keys acc ++ dict_keys items) ->
  all_known table items ->
  at_to_wt_loop table items acc
  = Ok (acc ++ map (fun it => (fst it, mass_contribution table it)) items).
Proof.
  revert acc. induction items as [|[k v] rest IH]; intros acc Hnd Hk; simpl.
  - now rewrite app_nil_r.
  - inversion Hk as [|? ? Hk1 Hk2]; subst.
    destruct (nodup_shift _ _ _ _ Hnd) as [Hfresh Hnd'].
    rewrite (known_mass _ Hk1).
    rewrite (dict_set_fresh _ _ _ Hfresh), (IH _ (Hnd' _) Hk2).
    now rewrite <- app_assoc.
Qed.

Lemma percent_comprehension_ok (items acc : dict F) (total : F) :
  NoDup (dict_keys acc ++ dict_keys items) ->
  f_is_zero total = false ->
  percent_comprehension items total acc
  = Ok (acc ++ map (fun it => (fst it, percent_of total (snd it))) items).
Proof.
  revert acc. induction items as [|[k v] rest IH]; intros acc Hnd Hz; simpl.
  - now rewrite app_nil_r.
  - destruct (nodup_shift _ _ _ _ Hnd) as [Hfresh Hnd'].
    rewrite (py_div_ok _ _ Hz). simpl.
    rewrite (dict_set_fresh _ _ _ Hfresh), (IH _ (Hnd' _) Hz).
    now rewrite <- app_assoc.
Qed.

(** A zero total makes the first division of the comprehension raise. *)
Lemma percent_comprehension_zero (items acc : dict F) (total : F) :
  items <> [] -> f_is_zero total = true ->
  percent_comprehension items total acc = Raise ZeroDivisionError.
Proof.
  destruct items as [|[k v] rest]; [congruence|]. intros _ Hz. simpl.
  unfold py_div. now rewrite Hz.
Qed.

Lemma check_ok (c : dict F) (mode : string) :
  sums_to_100 c -> check_input_composition c mode = Ok tt.
Proof. unfold sums_to_100, check_input_composition. now intros ->. Qed.

Lemma keys_of_amounts (amount : string * F -> F) (c : dict F) :
  dict_keys (map (fun it => (fst it, amount it)) c) = dict_keys c.
Proof. unfold dict_keys. rewrite map_map. reflexivity. Qed.

Lemma values_of_amounts (amount : string * F -> F) (c : dict F) :
  dict_values (map (fun it => (fst it, amount it)) c) = map amount c.
Proof. unfold dict_values. rewrite map_map. reflexivity. Qed.

Lemma shares_keys (amount : string * F -> F) (c : dict F) :
  dict_keys (shares amount c) = dict_keys c.
Proof. unfold shares. apply keys_of_amounts. Qed.

(** [wt_to_at] computes the specification's formula whenever no division
    meets a zero. *)
Lemma wt_to_at_spec (wt : dict F) :
  dict_wf wt -> sums_to_100 wt -> all_known table wt -> masses_nonzero table wt ->
  f_is_zero (py_sum (map (molar_amount table) wt)) = false ->
  wt_to_at table wt = Ok (weightToAtomic_spec table wt).
Proof.
  intros Hwf Hsum Hk Hm Hz. unfold wt_to_at.
  rewrite (check_ok _ _ Hsum). simpl.
  rewrite (wt_to_at_loop_ok wt [] Hwf Hk Hm).
  simpl. rewrite values_of_amounts.
  rewrite (percent_comprehension_ok _ [] _);
    [|simpl; now rewrite keys_of_amounts|exact Hz].
  simpl. unfold weightToAtomic_spec, shares. now rewrite map_map.
Qed.

Lemma at_to_wt_spec (at_ : dict F) :
  dict_wf at_ -> sums_to_100 at_ -> all_known table at_ ->
  f_is_zero (py_sum (map (mass_contribution table) at_)) = false ->
  at_to_wt table at_ = Ok (atomicToWeight_spec table at_).
Proof.
  intros Hwf Hsum Hk Hz. unfold at_to_wt.
  rewrite (check_ok _ _ Hsum). simpl.
  rewrite (at_to_wt_loop_ok at_ [] Hwf Hk).
  simpl. rewrite values_of_amounts.
  rewrite (percent_comprehension_ok _ [] _);
    [|simpl; now rewrite keys_of_amounts|exact Hz].
  simpl. unfold atomicToWeight_spec, shares. now rewrite map_map.
Qed.
End ConverterFacts.

(** ** Ground facts, by evaluation *)

Ltac distinct_keys :=
  unfold dict_wf; simpl;
  repeat (constructor; [simpl; intuition discriminate|]); constructor.

Ltac each_key := unfold all_known, masses_nonzero; simpl; repeat constructor.

Lemma steel_wf : dict_wf steel.
Proof. distinct_keys. Qed.

Lemma steel_valid :
  sums_to_100 steel /\ all_known float_table steel /\ masses_nonzero float_table steel.
Proof. repeat split; try (vm_compute; reflexivity); each_key. Qed.

Lemma cancelling_valid :
  dict_wf cancelling /\ sums_to_100 cancelling /\ all_known float_table cancelling
  /\ masses_nonzero float_table cancelling.
Proof.
  split; [distinct_keys|].
  repeat split; try (vm_compute; reflexivity); each_key.
Qed.

(** The decimals of the examples are read as the interpreter reads them:
    the binary64 values are given in hexadecimal. *)
Lemma float_of_decimal_examples :
  float_of_decimal 55845 3 = 0x1.bec28f5c28f5cp+5%float
  /\ float_of_decimal 12011 3 = 0x1.805a1cac08312p+3%float
  /\ float_of_decimal 1 2 = 0x1.47ae147ae147bp-7%float
  /\ float_of_decimal 12739640625 8 = 0x1.fd95eb851eb85p+6%float
  /\ float_of_decimal (-2740009375) 8 = (-0x1.b666c8b439581p+4)%float
  /\ float_of_decimal 100 0 = 0x1.9p+6%float.
Proof. repeat split; vm_compute; reflexivity. Qed.

(** ** Weight percent to atomic percent *)

(** C1, as the code has it.  For a composition with distinct symbols whose
    values sum to 100 within 0.01, whose every symbol has an entry in the
    table with a mass that is not zero, and whose molar amounts do not total
    zero, [wt_to_at] returns a mapping with the keys of the input, in the
    same order, in which each value is (wt% / mass) over the sum of all
    wt% / mass, times 100.  The statement holds in every arithmetic, binary64
    included. *)
Theorem C1_wt_to_at_formula (F : Type) (A : Arith F) (table wt : dict F) :
  dict_wf wt -> sums_to_100 wt -> all_known table wt ->
  masses_nonzero table wt ->
  f_is_zero (py_sum (map (molar_amount table) wt)) = false ->
  wt_to_at table wt = Ok (weightToAtomic_spec table wt)
  /\ dict_keys (weightToAtomic_spec table wt) = dict_keys wt
  /\ weightToAtomic_spec table wt
     = map (fun it =>
              (fst it,
               f_mul (f_quot (f_quot (snd it) (molar_mass table (fst it)))
                             (py_sum (map (fun e => f_quot (snd e) (molar_mass table (fst e))) wt)))
                     f_hundred)) wt.
Proof.
  intros Hwf Hsum Hk Hm Hz. split; [|split].
  - now apply wt_to_at_spec.
  - apply shares_keys.
  - reflexivity.
Qed.

(** The worked example: with the masses Fe = 55.845 and C = 12.011,
    [{Fe: 98.0, C: 2.0}] is converted by the formula. *)
Lemma C1_wt_to_at_formula_witness :
  wt_to_at float_table steel = Ok (weightToAtomic_spec float_table steel)
  /\ dict_keys (weightToAtomic_spec float_table steel) = dict_keys steel
  /\ weightToAtomic_spec float_table steel
     = map (fun it =>
              (fst it,
               f_mul (f_quot (f_quot (snd it) (molar_mass float_table (fst it)))
                             (py_sum (map (fun e => f_quot (snd e) (molar_mass float_table (fst e))) steel)))
                     f_hundred)) steel.
Proof.
  apply (C1_wt_to_at_formula float float_arith float_table steel).
  - exact steel_wf.
  - exact (proj1 steel_valid).
  - exact (proj1 (proj2 steel_valid)).
  - exact (proj2 (proj2 steel_valid)).
  - vm_compute. reflexivity.
Defined.

(** C1 as stated fails: [{Fe: 127.39640625, C: -27.40009375}] sums to 100
    within 0.01 and both symbols are in the table, yet the molar amounts
    cancel and [wt_to_at] raises [ZeroDivisionError] instead of returning,
    whichever way [sum] adds. *)
Lemma C1_zero_total_counterexample :
  Forall (fun A : Arith float =>
            @sums_to_100 float A cancelling
            /\ @all_known float float_table cancelling
            /\ @wt_to_at float A float_table cancelling = Raise ZeroDivisionError)
         float_arithmetics.
Proof.
  repeat constructor; try (vm_compute; reflexivity).
Qed.

(** ** Validation *)

Lemma real_constants :
  @f_zero R _ = 0%R /\ @f_hundred R _ = 100%R /\ @f_tol R _ = (1 / 100)%R.
Proof.
  unfold f_zero, f_hundred, f_tol. simpl. unfold real_of_decimal. simpl.
  repeat split; lra.
Qed.

Lemma real_leb_true (x y : R) : @f_leb R _ x y = true <-> (x <= y)%R.
Proof.
  simpl. destruct (Rle_dec x y); split; intros; try assumption; try reflexivity;
    try discriminate; contradiction.
Qed.

Lemma real_leb_false (x y : R) : @f_leb R _ x y = false <-> (x > y)%R.
Proof.
  simpl. destruct (Rle_dec x y) as [Hle|Hgt]; split; intros Hx;
    try discriminate; try reflexivity; lra.
Qed.

(** C4.  [check_input_composition] raises the sum error, carrying the total
    it computed, exactly when the total is not within 0.01 of 100, and
    otherwise returns nothing; it has no other outcome.  In exact arithmetic
    this is: it fails if and only if |total - 100| > 0.01.  In binary64,
    [{Fe: 90.0, C: 5.0}] fails with the total 95.0, whichever way [sum]
    adds. *)
Theorem C4_check_input_composition :
  (forall (F : Type) (A : Arith F) (c : dict F) (mode : string),
      check_input_composition c mode
      = if f_leb (f_abs (f_sub (py_sum (dict_values c)) f_hundred)) f_tol
        then Ok tt
        else Raise (SumError (py_sum (dict_values c))))
  /\ (forall (c : dict R) (mode : string),
         (check_input_composition c mode = Raise (SumError (py_sum (dict_values c)))
          <-> (Rabs (py_sum (dict_values c) - 100) > 1 / 100)%R)
         /\ (check_input_composition c mode = Ok tt
             <-> (Rabs (py_sum (dict_values c) - 100) <= 1 / 100)%R))
  /\ Forall (fun A : Arith float =>
               @check_input_composition float A short_sum "wt"
               = Raise (SumError (f_decimal 95 0)))
            float_arithmetics.
Proof.
  split; [|split].
  - intros F A c mode. unfold check_input_composition.
    now destruct (f_leb _ _).
  - intros c mode. unfold check_input_composition.
    destruct real_constants as (_ & H100 & Htol).
    rewrite H100, Htol.
    destruct (f_leb _ _) eqn:E; simpl.
    + apply real_leb_true in E. change (@f_abs R _) with Rabs in E.
      change (@f_sub R _) with Rminus in E.
      split; split; intros Hx; try discriminate; try reflexivity; try lra.
    + apply real_leb_false in E. change (@f_abs R _) with Rabs in E.
      change (@f_sub R _) with Rminus in E.
      split; split; intros Hx; try discriminate; try reflexivity; try lra.
  - repeat constructor; vm_compute; reflexivity.
Qed.

(** ** Unknown elements *)

Section MissingSymbol.
Context {F : Type} `{Arith F}.
Variable table : dict F.

Lemma dict_mem_false (k : string) :
  dict_mem table k = false -> dict_get table k = None.
Proof. unfold dict_mem. now destruct (dict_get table k). Qed.

Lemma wt_to_at_loop_missing (pre post acc : dict F) (k : string) (v : F) :
  all_known table pre -> masses_nonzero table pre -> dict_mem table k = false ->
  wt_to_at_loop table (pre ++ (k, v) :: post) acc = Raise (MissingElement k).
Proof.
  revert acc. induction pre as [|[k' v'] pre IH]; intros acc Hk Hm Hmiss; simpl.
  - now rewrite (dict_mem_false _ Hmiss).
  - inversion Hk as [|? ? Hk1 Hk2]; subst. inversion Hm as [|? ? Hm1 Hm2]; subst.
    rewrite (known_mass _ _ Hk1), (py_div_ok _ _ Hm1). simpl.
    now apply IH.
Qed.

Lemma at_to_wt_loop_missing (pre post acc : dict F) (k : string) (v : F) :
  all_known table pre -> dict_mem table k = false ->
  at_to_wt_loop table (pre ++ (k, v) :: post) acc = Raise (MissingElement k).
Proof.
  revert acc. induction pre as [|[k' v'] pre IH]; intros acc Hk Hmiss; simpl.
  - now rewrite (dict_mem_false _ Hmiss).
  - inversion Hk as [|? ? Hk1 Hk2]; subst.
    rewrite (known_mass _ _ Hk1). now apply IH.
Qed.
End MissingSymbol.

(** C5, as the code has it.  Let a composition pass the sum validation and
    let [k] be its first symbol, in key order, without an entry in the
    table: the symbols before it ([pre]) are all in the table.  Then
    [at_to_wt] raises the missing element error naming [k], and so does
    [wt_to_at] when the symbols before [k] have non-zero masses: neither
    returns a mapping, whole or partial. *)
Theorem C5_first_missing_symbol (F : Type) (A : Arith F) (table pre post : dict F)
  (k : string) (v : F) :
  sums_to_100 (pre ++ (k, v) :: post) ->
  all_known table pre -> dict_mem table k = false ->
  (masses_nonzero table pre ->
   wt_to_at table (pre ++ (k, v) :: post) = Raise (MissingElement k))
  /\ at_to_wt table (pre ++ (k, v) :: post) = Raise (MissingElement k).
Proof.
  intros Hsum Hk Hmiss. split.
  - intros Hm. unfold wt_to_at. rewrite (check_ok _ _ Hsum). simpl.
    now rewrite wt_to_at_loop_missing.
  - unfold at_to_wt. rewrite (check_ok _ _ Hsum). simpl.
    now rewrite at_to_wt_loop_missing.
Qed.

(** Converting [{Fe: 50.0, Xx: 50.0}] fails naming Xx, in both directions. *)
Lemma C5_first_missing_symbol_witness :
  wt_to_at float_table unknown_symbol = Raise (MissingElement "Xx")
  /\ at_to_wt float_table unknown_symbol = Raise (MissingElement "Xx").
Proof.
  destruct (C5_first_missing_symbol float float_arith float_table
              [("Fe", f_decimal 500 1)] [] "Xx" (f_decimal 500 1)) as [Hwt Hat].
  - vm_compute. reflexivity.
  - each_key.
  - vm_compute. reflexivity.
  - split; [apply Hwt; each_key | exact Hat].
Defined.

(** C5 as stated fails for [wt_to_at].  In a table that gives Og the
    placeholder mass 0.0, [{Og: 50.0, Xx: 50.0}] passes the validation and
    Xx is its first symbol without an entry; [wt_to_at] divides by the mass
    of Og before it looks Xx up, and raises [ZeroDivisionError], not the
    missing-element error.  [at_to_wt], which multiplies, names Xx. *)
Lemma C5_zero_mass_counterexample :
  Forall (fun A : Arith float =>
            @sums_to_100 float A zero_mass_then_unknown
            /\ dict_get placeholder_table "Og" = Some PrimFloat.zero
            /\ dict_mem placeholder_table "Xx" = false
            /\ @wt_to_at float A placeholder_table zero_mass_then_unknown
               = Raise ZeroDivisionError
            /\ @at_to_wt float A placeholder_table zero_mass_then_unknown
               = Raise (MissingElement "Xx"))
         float_arithmetics.
Proof.
  repeat constructor; vm_compute; reflexivity.
Qed.

(** ** Exact arithmetic *)

Local Open Scope R_scope.

Ltac real_ops :=
  unfold percent_of, molar_amount, mass_contribution in *;
  cbn [f_add f_sub f_mul f_quot f_abs f_opp f_leb f_is_zero real_arith] in *.

Lemma real_is_zero_false (y : R) : @f_is_zero R _ y = false <-> y <> 0.
Proof.
  simpl. destruct (Req_dec_T y 0) as [Hy|Hy]; split; intros Hx;
    try discriminate; try reflexivity; try assumption; contradiction.
Qed.

Lemma real_is_zero_true (y : R) : @f_is_zero R _ y = true <-> y = 0.
Proof.
  simpl. destruct (Req_dec_T y 0) as [Hy|Hy]; split; intros Hx;
    try discriminate; try reflexivity; try assumption; contradiction.
Qed.

Lemma fold_left_Rplus (xs : list R) (a : R) :
  fold_left Rplus xs a = a + fold_left Rplus xs 0.
Proof.
  revert a. induction xs as [|x xs IH]; intros a; simpl.
  - lra.
  - rewrite (IH (a + x)), (IH (0 + x)). lra.
Qed.

Lemma real_py_sum (xs : list R) : @py_sum R _ xs = fold_left Rplus xs 0.
Proof.
  unfold py_sum, plain_sum. cbn [f_summation f_add real_arith].
  now destruct real_constants as (-> & _).
Qed.

Lemma py_sum_nil : @py_sum R _ [] = 0.
Proof. now rewrite real_py_sum. Qed.

Lemma py_sum_cons (x : R) (xs : list R) :
  @py_sum R _ (x :: xs) = x + py_sum xs.
Proof.
  rewrite !real_py_sum. simpl. rewrite fold_left_Rplus. lra.
Qed.

(** Without rounding the compensation stays zero: the two ways of summing
    agree. *)
Lemma compensated_loop_exact (xs : list R) :
  forall total c : R,
    c = 0 -> @compensated_loop R _ xs total c = fold_left Rplus xs total.
Proof.
  induction xs as [|x xs IH]; intros total c Hc; cbn [compensated_loop fold_left].
  - rewrite (proj2 (real_is_zero_true c) Hc). reflexivity.
  - real_ops. apply IH. destruct (Rle_dec (Rabs x) (Rabs total)); lra.
Qed.

Lemma compensated_sum_exact (xs : list R) :
  @compensated_sum R _ xs = @plain_sum R _ xs.
Proof.
  unfold compensated_sum, plain_sum. destruct real_constants as (Hz & _).
  destruct xs as [|x xs]; [reflexivity|].
  cbn [fold_left]. now apply compensated_loop_exact.
Qed.

(** a sum scales with its terms *)
Lemma py_sum_scaled {A : Type} (f g : A -> R) (K : R) (l : list A) :
  (forall a, In a l -> g a = K * f a) ->
  py_sum (map g l) = K * py_sum (map f l).
Proof.
  induction l as [|a l IH]; intros Hfg; simpl.
  - rewrite py_sum_nil. lra.
  - rewrite !py_sum_cons, IH, (Hfg a); [lra|now left|].
    intros b Hb. apply Hfg. now right.
Qed.

Lemma py_sum_nonneg {A : Type} (f : A -> R) (l : list A) :
  (forall a, In a l -> 0 <= f a) -> 0 <= py_sum (map f l).
Proof.
  induction l as [|a l IH]; intros Hf; simpl.
  - rewrite py_sum_nil. lra.
  - rewrite py_sum_cons.
    assert (0 <= f a) by (apply Hf; now left).
    assert (0 <= py_sum (map f l)) by (apply IH; intros b Hb; apply Hf; now right).
    lra.
Qed.

(** Non-negative terms with a positive total: rescaling each term by a
    positive factor of its own keeps the total positive. *)
Lemma py_sum_pos_weighted {A : Type} (f w : A -> R) (l : list A) :
  (forall a, In a l -> 0 <= f a) -> (forall a, In a l -> 0 < w a) ->
  0 < py_sum (map f l) -> 0 < py_sum (map (fun a => f a * w a) l).
Proof.
  induction l as [|a l IH]; intros Hf Hw; simpl.
  - rewrite py_sum_nil. lra.
  - rewrite !py_sum_cons. intros Hpos.
    assert (Hfa : 0 <= f a) by (apply Hf; now left).
    assert (Hwa : 0 < w a) by (apply Hw; now left).
    assert (Hrest : 0 <= py_sum (map (fun a => f a * w a) l)).
    { apply py_sum_nonneg. intros b Hb.
      apply Rmult_le_pos; [apply Hf; now right|].
      apply Rlt_le, Hw. now right. }
    destruct (Rle_lt_or_eq_dec _ _ Hfa) as [Hgt|Heq].
    + assert (0 < f a * w a) by now apply Rmult_lt_0_compat.
      lra.
    + rewrite <- Heq in *. rewrite Rmult_0_l, Rplus_0_l in *.
      apply IH; [intros b Hb; apply Hf; now right
                |intros b Hb; apply Hw; now right|lra].
Qed.

Lemma real_sums_to_100 (c : dict R) :
  sums_to_100 c <-> Rabs (py_sum (dict_values c) - 100) <= 1 / 100.
Proof.
  unfold sums_to_100. rewrite real_leb_true.
  destruct real_constants as (_ & -> & ->). reflexivity.
Qed.

Lemma in_dict_keys {V : Type} (d : dict V) (it : string * V) :
  In it d -> In (fst it) (dict_keys d).
Proof. intros Hin. unfold dict_keys. now apply in_map. Qed.

Lemma in_dict_values {V : Type} (d : dict V) (it : string * V) :
  In it d -> In (snd it) (dict_values d).
Proof. intros Hin. unfold dict_values. now apply in_map. Qed.

Lemma real_total_positive (c : dict R) : sums_to_100 c -> 0 < py_sum (dict_values c).
Proof.
  rewrite real_sums_to_100. unfold Rabs.
  destruct (Rcase_abs _); lra.
Qed.

(** ** No division by zero *)

Lemma positive_masses_nonzero (table c : dict R) :
  Forall (fun k => 0 < molar_mass table k) (dict_keys c) -> masses_nonzero table c.
Proof.
  unfold masses_nonzero. rewrite !Forall_forall. intros Hpos k Hin.
  apply real_is_zero_false. specialize (Hpos k Hin). lra.
Qed.

Lemma nonneg_totals_positive (table c : dict R) :
  Forall (fun v => 0 <= v) (dict_values c) ->
  sums_to_100 c ->
  Forall (fun k => 0 < molar_mass table k) (dict_keys c) ->
  0 < py_sum (map (molar_amount table) c)
  /\ 0 < py_sum (map (mass_contribution table) c).
Proof.
  intros Hnn Hsum Hpos.
  pose proof (real_total_positive _ Hsum) as Htot.
  rewrite Forall_forall in Hnn, Hpos. split.
  - apply (py_sum_pos_weighted snd (fun it => / molar_mass table (fst it))).
    + intros it Hin. apply Hnn. now apply in_dict_values.
    + intros it Hin. apply Rinv_0_lt_compat, Hpos. now apply in_dict_keys.
    + exact Htot.
  - apply (py_sum_pos_weighted snd (fun it => molar_mass table (fst it))).
    + intros it Hin. apply Hnn. now apply in_dict_values.
    + intros it Hin. apply Hpos. now apply in_dict_keys.
    + exact Htot.
Qed.


Lemma real_steel_valid :
  dict_wf real_steel /\ Forall (fun v => 0 <= v) (dict_values real_steel)
  /\ sums_to_100 real_steel /\ all_known real_table real_steel
  /\ Forall (fun k => 0 < molar_mass real_table k) (dict_keys real_steel).
Proof.
  split; [distinct_keys|].
  split; [simpl; unfold real_of_decimal; simpl; repeat constructor; lra|].
  split.
  { apply real_sums_to_100. rewrite real_py_sum. simpl.
    unfold real_of_decimal. simpl. apply Rabs_le. lra. }
  split; [each_key|].
  simpl. unfold molar_mass. simpl. unfold real_of_decimal. simpl.
  repeat constructor; lra.
Qed.




(** ** The outputs sum to 100 *)

Lemma shares_sum {A : Type} (amount : A -> R) (l : list A) :
  py_sum (map amount l) <> 0 ->
  py_sum (map (fun a => percent_of (py_sum (map amount l)) (amount a)) l) = 100.
Proof.
  intros HT. set (T := py_sum (map amount l)) in *.
  rewrite (py_sum_scaled amount _ (100 / T)).
  - fold T. field. exact HT.
  - intros a _. unfold percent_of. destruct real_constants as (_ & -> & _).
    real_ops. field. exact HT.
Qed.

Lemma shares_values_sum (amount : string * R -> R) (c : dict R) :
  py_sum (map amount c) <> 0 -> py_sum (dict_values (shares amount c)) = 100.
Proof.
  intros HT. unfold shares. rewrite values_of_amounts. now apply shares_sum.
Qed.

(** C3, as the code has it, in exact arithmetic.  For a composition with
    distinct symbols summing to 100 within 0.01, all in the table, whose
    total of molar amounts (resp. of mass contributions) is not zero,
    [wt_to_at] (resp. [at_to_wt]) returns and its output values sum to
    exactly 100. *)
Theorem C3_outputs_sum_to_100 (table c : dict R) :
  dict_wf c -> sums_to_100 c -> all_known table c ->
  (masses_nonzero table c -> py_sum (map (molar_amount table) c) <> 0 ->
   exists out, wt_to_at table c = Ok out /\ py_sum (dict_values out) = 100)
  /\ (py_sum (map (mass_contribution table) c) <> 0 ->
      exists out, at_to_wt table c = Ok out /\ py_sum (dict_values out) = 100).
Proof.
  intros Hwf Hsum Hk. split.
  - intros Hm HT. exists (weightToAtomic_spec table c). split.
    + apply wt_to_at_spec; try assumption. now apply real_is_zero_false.
    + now apply shares_values_sum.
  - intros HT. exists (atomicToWeight_spec table c). split.
    + apply at_to_wt_spec; try assumption. now apply real_is_zero_false.
    + now apply shares_values_sum.
Qed.

Lemma real_steel_totals :
  masses_nonzero real_table real_steel
  /\ py_sum (map (molar_amount real_table) real_steel) <> 0
  /\ py_sum (map (mass_contribution real_table) real_steel) <> 0.
Proof.
  destruct real_steel_valid as (_ & Hnn & Hsum & _ & Hpos).
  destruct (nonneg_totals_positive _ _ Hnn Hsum Hpos) as [Hmol Hmass].
  split; [now apply positive_masses_nonzero|]. split; lra.
Qed.

(** The steel composition, in exact arithmetic with the built-in table. *)
Lemma C3_outputs_sum_to_100_witness :
  (exists out, wt_to_at real_table real_steel = Ok out /\ py_sum (dict_values out) = 100)
  /\ (exists out, at_to_wt real_table real_steel = Ok out /\ py_sum (dict_values out) = 100).
Proof.
  destruct (C3_outputs_sum_to_100 real_table real_steel) as [Hwt Hat];
    try apply real_steel_valid.
  split.
  - apply Hwt; apply real_steel_totals.
  - apply Hat; apply real_steel_totals.
Defined.

(** C3 as stated fails in binary64:
    [{Fe: 127.39640625, C: -27.40009374999999}] sums to 100 within 0.01 and
    both symbols are in the table; [wt_to_at] returns, and its two output
    values sum to 96, four away from 100, whichever way [sum] adds. *)
Lemma C3_float_sum_counterexample :
  Forall (fun A : Arith float =>
            @sums_to_100 float A near_cancelling
            /\ @all_known float float_table near_cancelling
            /\ exists out,
                @wt_to_at float A float_table near_cancelling = Ok out
                /\ @py_sum float A (dict_values out) = f_decimal 96 0
                /\ PrimFloat.leb
                     (PrimFloat.abs (PrimFloat.sub (@py_sum float A (dict_values out))
                                                   (f_decimal 100 0)))
                     (f_decimal 1 9) = false)
         float_arithmetics.
Proof.
  repeat constructor; try (vm_compute; reflexivity);
    (eexists; split; [vm_compute; reflexivity|split; vm_compute; reflexivity]).
Qed.

(** ** Round trips *)

Section RoundTrip.
(** Two weightings of the symbols that undo each other: [1 / mass] and
    [mass], in either order. *)
Variables w w' : string -> R.

Let f (it : string * R) : R := snd it * w (fst it).
Let g (it : string * R) : R := snd it * w' (fst it).

Lemma shares_back_total (c : dict R) :
  (forall it, In it c -> w (fst it) * w' (fst it) = 1) ->
  py_sum (map f c) <> 0 ->
  py_sum (map g (shares f c)) = 100 / py_sum (map f c) * py_sum (dict_values c).
Proof.
  intros Hw HT. unfold shares. rewrite map_map. unfold dict_values.
  apply py_sum_scaled. intros it Hin. unfold g. cbn [fst snd].
  unfold percent_of. destruct real_constants as (_ & -> & _). real_ops.
  specialize (Hw it Hin). set (T := py_sum (map f c)) in *. unfold f.
  transitivity (snd it * (w (fst it) * w' (fst it)) * (100 / T)).
  - field. exact HT.
  - rewrite Hw. field. exact HT.
Qed.

Lemma shares_back (c : dict R) :
  (forall it, In it c -> w (fst it) * w' (fst it) = 1) ->
  py_sum (map f c) <> 0 -> py_sum (dict_values c) <> 0 ->
  shares g (shares f c) = rescaled c.
Proof.
  intros Hw HT HS. unfold shares at 1. rewrite (shares_back_total c Hw HT).
  unfold shares, rescaled. rewrite map_map. apply map_ext_in.
  intros it Hin. cbn [fst snd]. f_equal. unfold g. cbn [fst snd].
  unfold percent_of. destruct real_constants as (_ & -> & _). real_ops.
  specialize (Hw it Hin).
  set (T := py_sum (map f c)) in *. set (S := py_sum (dict_values c)) in *.
  unfold f.
  transitivity (snd it * (w (fst it) * w' (fst it)) * 100 / S).
  - field. split; assumption.
  - rewrite Hw. field. exact HS.
Qed.
End RoundTrip.

Lemma masses_nonzero_real (table c : dict R) (it : string * R) :
  masses_nonzero table c -> In it c -> molar_mass table (fst it) <> 0.
Proof.
  unfold masses_nonzero. rewrite Forall_forall. intros Hm Hin.
  apply real_is_zero_false, Hm. now apply in_dict_keys.
Qed.

Lemma shares_valid (table : dict R) (amount : string * R -> R) (c : dict R) :
  dict_wf c -> all_known table c -> py_sum (map amount c) <> 0 ->
  dict_wf (shares amount c) /\ sums_to_100 (shares amount c)
  /\ all_known table (shares amount c).
Proof.
  intros Hwf Hk HT. unfold dict_wf, all_known. rewrite !shares_keys.
  split; [exact Hwf|]. split; [|exact Hk].
  apply real_sums_to_100. rewrite (shares_values_sum _ _ HT).
  replace (100 - 100) with 0 by lra. rewrite Rabs_R0. lra.
Qed.

Lemma masses_nonzero_shares (table : dict R) (amount : string * R -> R) (c : dict R) :
  masses_nonzero table c -> masses_nonzero table (shares amount c).
Proof. unfold masses_nonzero. now rewrite shares_keys. Qed.

Lemma wt_then_at (table c : dict R) :
  dict_wf c -> sums_to_100 c -> all_known table c -> masses_nonzero table c ->
  py_sum (map (molar_amount table) c) <> 0 ->
  wt_to_at table c = Ok (weightToAtomic_spec table c)
  /\ at_to_wt table (weightToAtomic_spec table c) = Ok (rescaled c).
Proof.
  intros Hwf Hsum Hk Hm HT.
  pose proof (real_total_positive _ Hsum) as HS.
  assert (Hinv : forall it, In it c ->
            / molar_mass table (fst it) * molar_mass table (fst it) = 1).
  { intros it Hin. apply Rinv_l. now apply (masses_nonzero_real table c). }
  split; [apply wt_to_at_spec; try assumption; now apply real_is_zero_false|].
  destruct (shares_valid table (molar_amount table) c Hwf Hk HT) as (Hwf' & Hsum' & Hk').
  unfold weightToAtomic_spec.
  rewrite at_to_wt_spec; try assumption.
  - f_equal.
    apply (shares_back (fun k => / molar_mass table k) (molar_mass table) c Hinv HT).
    lra.
  - apply real_is_zero_false.
    pose proof (shares_back_total (fun k => / molar_mass table k) (molar_mass table)
                  c Hinv HT) as Htot.
    change (py_sum (map (mass_contribution table) (shares (molar_amount table) c))
            = 100 / py_sum (map (molar_amount table) c) * py_sum (dict_values c)) in Htot.
    rewrite Htot. apply Rmult_integral_contrapositive_currified; [|lra].
    unfold Rdiv. apply Rmult_integral_contrapositive_currified; [lra|].
    now apply Rinv_neq_0_compat.
Qed.

Lemma at_then_wt (table c : dict R) :
  dict_wf c -> sums_to_100 c -> all_known table c -> masses_nonzero table c ->
  py_sum (map (mass_contribution table) c) <> 0 ->
  at_to_wt table c = Ok (atomicToWeight_spec table c)
  /\ wt_to_at table (atomicToWeight_spec table c) = Ok (rescaled c).
Proof.
  intros Hwf Hsum Hk Hm HT.
  pose proof (real_total_positive _ Hsum) as HS.
  assert (Hinv : forall it, In it c ->
            molar_mass table (fst it) * / molar_mass table (fst it) = 1).
  { intros it Hin. apply Rinv_r. now apply (masses_nonzero_real table c). }
  split; [apply at_to_wt_spec; try assumption; now apply real_is_zero_false|].
  destruct (shares_valid table (mass_contribution table) c Hwf Hk HT) as (Hwf' & Hsum' & Hk').
  unfold atomicToWeight_spec.
  rewrite wt_to_at_spec; try assumption.
  - f_equal.
    apply (shares_back (molar_mass table) (fun k => / molar_mass table k) c Hinv HT).
    lra.
  - now apply masses_nonzero_shares.
  - apply real_is_zero_false.
    pose proof (shares_back_total (molar_mass table) (fun k => / molar_mass table k)
                  c Hinv HT) as Htot.
    change (py_sum (map (molar_amount table) (shares (mass_contribution table) c))
            = 100 / py_sum (map (mass_contribution table) c) * py_sum (dict_values c)) in Htot.
    rewrite Htot. apply Rmult_integral_contrapositive_currified; [|lra].
    unfold Rdiv. apply Rmult_integral_contrapositive_currified; [lra|].
    now apply Rinv_neq_0_compat.
Qed.

Lemma rescaled_exact (c : dict R) : py_sum (dict_values c) = 100 -> rescaled c = c.
Proof.
  intros HS. unfold rescaled. rewrite HS.
  rewrite <- (map_id c) at 2. apply map_ext. intros [k v]. cbn [fst snd].
  f_equal. field.
Qed.

Lemma rescaled_close (c : dict R) :
  sums_to_100 c ->
  Forall (fun it => Rabs (snd it * 100 / py_sum (dict_values c) - snd it) * 9999
                    <= Rabs (snd it)) c.
Proof.
  intros Hsum. pose proof (real_total_positive _ Hsum) as HS.
  apply real_sums_to_100 in Hsum. set (S := py_sum (dict_values c)) in *.
  apply Forall_forall. intros [k v] _. cbn [snd].
  replace (v * 100 / S - v) with (v * ((100 - S) / S)) by (field; lra).
  rewrite Rabs_mult.
  assert (Hq : Rabs ((100 - S) / S) * 9999 <= 1).
  { unfold Rdiv. rewrite Rabs_mult, (Rabs_pos_eq (/ S)).
    - assert (Hd : Rabs (100 - S) * 9999 <= S).
      { rewrite Rabs_minus_sym. unfold Rabs in *. destruct (Rcase_abs _); lra. }
      apply (Rmult_le_reg_r S); [exact HS|].
      replace (Rabs (100 - S) * / S * 9999 * S) with (Rabs (100 - S) * 9999)
        by (field; lra).
      lra.
    - apply Rlt_le, Rinv_0_lt_compat, HS. }
  pose proof (Rabs_pos v) as Hv.
  pose proof (Rabs_pos ((100 - S) / S)) as Hx.
  nra.
Qed.

(** C2, as the code has it, in exact arithmetic.  For a composition with
    distinct symbols summing to 100 within 0.01, all in the table with
    non-zero masses: a conversion followed by the opposite one returns the
    composition rescaled to sum to 100, that is every value times
    100 / (sum of the values), provided the first conversion's total is not
    zero.  The round trip is the identity when the values sum to exactly
    100; in general each value comes back within a relative 1/9999. *)
Theorem C2_round_trip_rescales (table c : dict R) :
  dict_wf c -> sums_to_100 c -> all_known table c -> masses_nonzero table c ->
  (py_sum (map (molar_amount table) c) <> 0 ->
   exists a, wt_to_at table c = Ok a /\ at_to_wt table a = Ok (rescaled c))
  /\ (py_sum (map (mass_contribution table) c) <> 0 ->
      exists w, at_to_wt table c = Ok w /\ wt_to_at table w = Ok (rescaled c))
  /\ (py_sum (dict_values c) = 100 -> rescaled c = c)
  /\ Forall (fun it => Rabs (snd it * 100 / py_sum (dict_values c) - snd it) * 9999
                       <= Rabs (snd it)) c.
Proof.
  intros Hwf Hsum Hk Hm. split; [|split; [|split]].
  - intros HT. exists (weightToAtomic_spec table c). now apply wt_then_at.
  - intros HT. exists (atomicToWeight_spec table c). now apply at_then_wt.
  - apply rescaled_exact.
  - now apply rescaled_close.
Qed.

Lemma real_steel_sum : py_sum (dict_values real_steel) = 100.
Proof. rewrite real_py_sum. simpl. unfold real_of_decimal. simpl. lra. Qed.

(** The steel composition sums to exactly 100: both round trips give it back. *)
Lemma C2_round_trip_rescales_witness :
  (exists a, wt_to_at real_table real_steel = Ok a
             /\ at_to_wt real_table a = Ok real_steel)
  /\ (exists w, at_to_wt real_table real_steel = Ok w
                /\ wt_to_at real_table w = Ok real_steel).
Proof.
  destruct (C2_round_trip_rescales real_table real_steel)
    as (Hwt & Hat & Hid & _);
    try apply real_steel_valid; try apply real_steel_totals.
  rewrite (Hid real_steel_sum) in Hwt, Hat.
  split; [apply Hwt | apply Hat]; apply real_steel_totals.
Defined.

(** C2 as stated fails: [{Fe: 98.005, C: 2.0}] sums to 100.005, within the
    tolerance, and both symbols are in the table; converting to atomic
    percent and back gives Fe = 98.0000999..., which differs from 98.005 by
    more than 1e-6 times 98.005, whichever way [sum] adds. *)
Lemma C2_round_trip_counterexample :
  Forall (fun A : Arith float =>
            @sums_to_100 float A off_by_5e_3
            /\ @all_known float float_table off_by_5e_3
            /\ exists a back x,
                @wt_to_at float A float_table off_by_5e_3 = Ok a
                /\ @at_to_wt float A float_table a = Ok back
                /\ dict_get back "Fe" = Some x
                /\ PrimFloat.ltb
                     (PrimFloat.mul (f_decimal 1 6) (f_decimal 98005 3))
                     (PrimFloat.abs (PrimFloat.sub x (f_decimal 98005 3))) = true)
         float_arithmetics.
Proof.
  repeat constructor; try (vm_compute; reflexivity);
    (eexists; eexists; eexists;
     split; [vm_compute; reflexivity|];
     split; [vm_compute; reflexivity|];
     split; vm_compute; reflexivity).
Qed.

Local Close Scope R_scope.

(** ** The matcher against the language of a regular expression *)

Lemma firstn_consumed (pre s' : text) :
  firstn (List.length (pre ++ s') - List.length s') (pre ++ s') = pre.
Proof.
  rewrite length_app, Nat.add_sub.
  rewrite firstn_app, Nat.sub_diag, firstn_all. simpl. apply app_nil_r.
Qed.

Lemma match_star_sound {A : Type} (p : ascii -> bool) (k : text -> option A) :
  forall (s : text) (a : A),
    match_star p k s = Some a ->
    exists pre s', s = pre ++ s' /\ forallb p pre = true /\ k s' = Some a.
Proof.
  induction s as [|c s IH]; intros a Hm; simpl in Hm.
  - exists [], []. auto.
  - destruct (p c) eqn:Hp; [|exists [], (c :: s); auto].
    destruct (match_star p k s) as [a'|] eqn:Hstar; [|exists [], (c :: s); auto].
    injection Hm as ->. destruct (IH _ eq_refl) as (pre & s' & Hs & Hall & Hk).
    exists (c :: pre), s'. subst s. simpl. rewrite Hp. auto.
Qed.

Lemma match_star_complete {A : Type} (p : ascii -> bool) (k : text -> option A) :
  forall (pre s' : text),
    forallb p pre = true -> k s' <> None -> match_star p k (pre ++ s') <> None.
Proof.
  induction pre as [|c pre IH]; intros s' Hall Hk; simpl.
  - destruct s' as [|c s']; simpl; [exact Hk|].
    destruct (p c); [|exact Hk].
    destruct (match_star p k s'); [discriminate|exact Hk].
  - simpl in Hall. apply andb_prop in Hall as [Hc Hall]. rewrite Hc.
    specialize (IH s' Hall Hk).
    destruct (match_star p k (pre ++ s')); [discriminate|now exfalso].
Qed.

(** Whatever the matcher answers came from its continuation, called on what
    is left after a text of the language. *)
Lemma match_at_sound {A : Type} (r : regex) :
  forall (s : text) (caps : list text) (k : text -> list text -> option A) (a : A),
    match_at r s caps k = Some a ->
    exists pre s' caps',
      s = pre ++ s' /\ lang r pre caps caps' /\ k s' caps' = Some a.
Proof.
  induction r as [p|r IH|p|r1 IH1 r2 IH2|r IH]; intros s caps k a Hm; simpl in Hm.
  - destruct s as [|c s]; [discriminate|].
    destruct (p c) eqn:Hp; [|discriminate].
    exists [c], s, caps. split; [reflexivity|]. split; [now apply L_cls|exact Hm].
  - destruct (match_at r s caps k) as [a'|] eqn:Hr.
    + injection Hm as ->. destruct (IH _ _ _ _ Hr) as (pre & s' & caps' & Hs & Hl & Hk).
      exists pre, s', caps'. split; [exact Hs|]. split; [now apply L_opt_some|exact Hk].
    + exists [], s, caps. split; [reflexivity|]. split; [apply L_opt_none|exact Hm].
  - destruct (match_star_sound _ _ _ _ Hm) as (pre & s' & Hs & Hall & Hk).
    exists pre, s', caps. split; [exact Hs|]. split; [now apply L_star|exact Hk].
  - destruct (IH1 _ _ _ _ Hm) as (pre1 & s1 & caps1 & Hs1 & Hl1 & Hk1).
    destruct (IH2 _ _ _ _ Hk1) as (pre2 & s2 & caps2 & Hs2 & Hl2 & Hk2).
    exists (pre1 ++ pre2), s2, caps2. subst. rewrite <- app_assoc.
    split; [reflexivity|]. split; [|exact Hk2]. eapply L_seq; eassumption.
  - destruct (IH _ _ _ _ Hm) as (pre & s' & caps' & Hs & Hl & Hk).
    subst s. rewrite firstn_consumed in Hk.
    exists pre, s', (caps' ++ [pre]). split; [reflexivity|].
    split; [now apply L_group|exact Hk].
Qed.

(** If a text of the language is followed by something the continuation
    accepts, the matcher finds some match. *)
Lemma match_at_complete {A : Type} (r : regex) (pre : text) (caps caps' : list text) :
  lang r pre caps caps' ->
  forall (s' : text) (k : text -> list text -> option A),
    k s' caps' <> None -> match_at r (pre ++ s') caps k <> None.
Proof.
  induction 1 as [p c caps Hp|r pre caps caps' Hl IH|r caps|p pre caps Hall
                 |r1 r2 pre1 pre2 caps caps1 caps2 Hl1 IH1 Hl2 IH2
                 |r pre caps caps' Hl IH]; intros s' k Hk; simpl.
  - now rewrite Hp.
  - specialize (IH s' k Hk). now destruct (match_at r (pre ++ s') caps k).
  - now destruct (match_at r s' caps k).
  - now apply match_star_complete.
  - rewrite <- app_assoc. apply IH1. now apply IH2.
  - apply IH. now rewrite firstn_consumed.
Qed.

(** ** Character classes *)

Ltac by_cases_on_char c :=
  destruct c as [[] [] [] [] [] [] [] []]; vm_compute; intros; congruence.

Lemma space_not_quote (c : ascii) : is_space c = true -> is_quote c = false.
Proof. by_cases_on_char c. Qed.

Lemma separator_not_quote (c : ascii) : is_separator c = true -> is_quote c = false.
Proof. by_cases_on_char c. Qed.

Lemma separator_not_space (c : ascii) : is_separator c = true -> is_space c = false.
Proof. by_cases_on_char c. Qed.

Lemma dot_not_digit (c : ascii) : is_dot c = true -> is_digit c = false.
Proof. by_cases_on_char c. Qed.

Lemma lstrip_spaces (w : text) (c : ascii) (l : text) :
  forallb is_space w = true -> is_space c = false -> lstrip (w ++ c :: l) = c :: l.
Proof.
  induction w as [|x w IH]; simpl; intros Hw Hc.
  - now rewrite Hc.
  - apply andb_prop in Hw as [Hx Hw]. rewrite Hx. now apply IH.
Qed.

(** [lstrip] splits a text into blanks and a rest that does not start with
    one. *)
Lemma lstrip_split (s : text) :
  exists w, s = w ++ lstrip s /\ forallb is_space w = true.
Proof.
  induction s as [|c s (w & Hs & Hw)]; simpl.
  - now exists [].
  - destruct (is_space c) eqn:Hc.
    + exists (c :: w). simpl. rewrite Hc, <- Hs. auto.
    + now exists [].
Qed.

Lemma span_all (p : ascii -> bool) (ds : text) :
  forallb p ds = true -> span p ds = (ds, []).
Proof.
  induction ds as [|d ds IH]; simpl; intros Hall; [reflexivity|].
  apply andb_prop in Hall as [Hd Hall]. now rewrite Hd, IH.
Qed.

Lemma span_stop (p : ascii -> bool) (ds : text) (c : ascii) (l : text) :
  forallb p ds = true -> p c = false -> span p (ds ++ c :: l) = (ds, c :: l).
Proof.
  induction ds as [|d ds IH]; simpl; intros Hall Hc.
  - now rewrite Hc.
  - apply andb_prop in Hall as [Hd Hall]. now rewrite Hd, IH.
Qed.

(** [span] splits a text into a run of the class and a rest that does not
    start in the class. *)
Lemma span_split (p : ascii -> bool) (s : text) :
  s = fst (span p s) ++ snd (span p s) /\ forallb p (fst (span p s)) = true.
Proof.
  induction s as [|c s [Hs Hall]]; simpl; [auto|].
  destruct (p c) eqn:Hc; [|auto].
  destruct (span p s) as [a b]. simpl in *. rewrite Hc, <- Hs. auto.
Qed.

(** ** The pattern against the token form *)

Lemma lang_cls_inv (p : ascii -> bool) (pre : text) (caps caps' : list text) :
  lang (Cls p) pre caps caps' -> caps' = caps /\ exists c, pre = [c] /\ p c = true.
Proof. inversion 1; subst. eauto. Qed.

Lemma lang_star_inv (p : ascii -> bool) (pre : text) (caps caps' : list text) :
  lang (Star p) pre caps caps' -> caps' = caps /\ forallb p pre = true.
Proof. inversion 1; subst. auto. Qed.

Lemma lang_opt_cls_inv (p : ascii -> bool) (pre : text) (caps caps' : list text) :
  lang (Opt (Cls p)) pre caps caps' ->
  caps' = caps /\ (pre = [] \/ exists c, pre = [c] /\ p c = true).
Proof.
  inversion 1 as [|? ? ? ? Hl| | | |]; subst.
  - apply lang_cls_inv in Hl as [-> Hc]. auto.
  - auto.
Qed.

Lemma lang_seq_inv (r1 r2 : regex) (pre : text) (caps caps' : list text) :
  lang (Seq r1 r2) pre caps caps' ->
  exists pre1 pre2 caps1,
    pre = pre1 ++ pre2 /\ lang r1 pre1 caps caps1 /\ lang r2 pre2 caps1 caps'.
Proof. inversion 1; subst. eauto 6. Qed.

Lemma lang_group_inv (r : regex) (pre : text) (caps caps' : list text) :
  lang (Group r) pre caps caps' ->
  exists caps1, caps' = caps1 ++ [pre] /\ lang r pre caps caps1.
Proof. inversion 1; subst. eauto. Qed.

Lemma lang_symbol (sym : text) (caps caps' : list text) :
  lang (Seq (Cls is_alpha) (Opt (Cls is_lower))) sym caps caps' <->
  caps' = caps /\ symbolb sym = true.
Proof.
  split.
  - intros Hl. apply lang_seq_inv in Hl as (p1 & p2 & c1 & -> & H1 & H2).
    apply lang_cls_inv in H1 as (-> & a & -> & Ha).
    apply lang_opt_cls_inv in H2 as (-> & [->|(b & -> & Hb)]); simpl;
      rewrite Ha; auto.
  - intros [-> Hs]. destruct sym as [|a [|b [|]]]; simpl in Hs; try discriminate.
    + eapply (L_seq _ _ [a] []); [now apply L_cls|apply L_opt_none].
    + apply andb_prop in Hs as [Ha Hb].
      eapply (L_seq _ _ [a] [b]); [now apply L_cls|].
      apply L_opt_some. now apply L_cls.
Qed.

Lemma lang_number (num : text) (caps caps' : list text) :
  lang (Seq (Plus is_digit) (Seq (Opt (Cls is_dot)) (Star is_digit))) num caps caps' <->
  caps' = caps /\ numberb num = true.
Proof.
  unfold Plus, numberb. split.
  - intros Hl. apply lang_seq_inv in Hl as (p1 & p2 & c1 & -> & H1 & H2).
    apply lang_seq_inv in H1 as (d1 & ds & c0 & -> & Hd & Hds).
    apply lang_cls_inv in Hd as (-> & d & -> & Hd).
    apply lang_star_inv in Hds as (-> & Hds).
    apply lang_seq_inv in H2 as (dot & fs & c2 & -> & Hdot & Hfs).
    apply lang_opt_cls_inv in Hdot as (-> & Hdot).
    apply lang_star_inv in Hfs as (-> & Hfs).
    split; [reflexivity|].
    assert (Hint : forallb is_digit ([d] ++ ds) = true) by (simpl; now rewrite Hd).
    destruct Hdot as [->|(c & -> & Hc)].
    + simpl ([] ++ fs). rewrite span_all; [reflexivity|].
      rewrite forallb_app, Hint. exact Hfs.
    + simpl ([c] ++ fs).
      rewrite (span_stop _ _ _ _ Hint (dot_not_digit _ Hc)).
      simpl. now rewrite Hc.
  - intros [-> Hn].
    destruct (span_split is_digit num) as [Hsplit Hall].
    destruct (span is_digit num) as [ip r]. simpl in *.
    destruct ip as [|d ds]; [discriminate|]. simpl in Hall.
    apply andb_prop in Hall as [Hd Hds]. subst num.
    eapply (L_seq _ _ (d :: ds) r).
    + eapply (L_seq _ _ [d] ds); [now apply L_cls|now apply L_star].
    + destruct r as [|c fs].
      * eapply (L_seq _ _ [] []); [apply L_opt_none|now apply L_star].
      * apply andb_prop in Hn as [Hc Hfs].
        eapply (L_seq _ _ [c] fs); [|now apply L_star].
        apply L_opt_some. now apply L_cls.
Qed.

Lemma lang_lead (lead : text) (caps caps' : list text) :
  lang (Opt (Cls is_quote)) lead caps caps' <-> caps' = caps /\ leadb lead = true.
Proof.
  split.
  - intros Hl. apply lang_opt_cls_inv in Hl as (-> & [->|(q & -> & Hq)]); auto.
  - intros [-> Hl]. destruct lead as [|q [|]]; simpl in Hl; try discriminate.
    + apply L_opt_none.
    + apply L_opt_some. now apply L_cls.
Qed.

(** the four parts of a link *)
Lemma linkb_parts (link : text) :
  linkb link = true <->
  exists quote w1 sep w2,
    link = quote ++ w1 ++ [sep] ++ w2
    /\ leadb quote = true /\ forallb is_space w1 = true
    /\ is_separator sep = true /\ forallb is_space w2 = true.
Proof.
  unfold linkb. split.
  - intros Hl.
    assert (Hrest : forall l, match lstrip l with
                              | [] => false
                              | sep :: l' => is_separator sep && forallb is_space l'
                              end = true ->
                              exists w1 sep w2, l = w1 ++ [sep] ++ w2
                                /\ forallb is_space w1 = true
                                /\ is_separator sep = true
                                /\ forallb is_space w2 = true).
    { intros l Hm. destruct (lstrip_split l) as (w1 & Hs & Hw1).
      destruct (lstrip l) as [|sep w2]; [discriminate|].
      apply andb_prop in Hm as [Hsep Hw2]. exists w1, sep, w2. auto. }
    destruct link as [|q l]; [discriminate|].
    destruct (is_quote q) eqn:Hq.
    + destruct (Hrest _ Hl) as (w1 & sep & w2 & -> & H1 & H2 & H3).
      exists [q], w1, sep, w2. simpl. rewrite Hq. auto.
    + destruct (Hrest _ Hl) as (w1 & sep & w2 & Heq & H1 & H2 & H3).
      exists [], w1, sep, w2. simpl. auto.
  - intros (quote & w1 & sep & w2 & -> & Hq & Hw1 & Hsep & Hw2).
    assert (Hgo : lstrip (w1 ++ [sep] ++ w2) = sep :: w2)
      by (apply lstrip_spaces; [exact Hw1|now apply separator_not_space]).
    destruct quote as [|q [|]]; simpl in Hq; try discriminate.
    + destruct w1 as [|c w1]; cbn [app] in *.
      * rewrite (separator_not_quote _ Hsep), Hgo, Hsep. exact Hw2.
      * simpl in Hw1. apply andb_prop in Hw1 as [Hc Hw1].
        rewrite (space_not_quote _ Hc), Hgo, Hsep. exact Hw2.
    + cbn [app] in *. rewrite Hq, Hgo, Hsep. exact Hw2.
Qed.

(** The texts the pattern matches are those of the token form, and the two
    groups are the symbol and the number. *)
Lemma pattern_token_form (pre : text) (caps : list text) :
  lang pattern pre [] caps <->
  exists lead sym link num,
    pre = lead ++ sym ++ link ++ num /\ caps = [sym; num]
    /\ leadb lead = true /\ symbolb sym = true
    /\ linkb link = true /\ numberb num = true.
Proof.
  unfold pattern. split.
  - intros Hl.
    apply lang_seq_inv in Hl as (lead & r1 & c1 & -> & Hlead & Hl).
    apply lang_lead in Hlead as [-> Hlead].
    apply lang_seq_inv in Hl as (sym & r2 & c2 & -> & Hsym & Hl).
    apply lang_group_inv in Hsym as (c2' & -> & Hsym).
    apply lang_symbol in Hsym as [-> Hsym].
    apply lang_seq_inv in Hl as (quote & r3 & c3 & -> & Hq & Hl).
    apply lang_lead in Hq as [-> Hq].
    apply lang_seq_inv in Hl as (w1 & r4 & c4 & -> & Hw1 & Hl).
    apply lang_star_inv in Hw1 as [-> Hw1].
    apply lang_seq_inv in Hl as (sp & r5 & c5 & -> & Hsep & Hl).
    apply lang_cls_inv in Hsep as (-> & sep & -> & Hsep).
    apply lang_seq_inv in Hl as (w2 & num & c6 & -> & Hw2 & Hl).
    apply lang_star_inv in Hw2 as [-> Hw2].
    apply lang_group_inv in Hl as (c7 & -> & Hnum).
    apply lang_number in Hnum as [-> Hnum].
    exists lead, sym, (quote ++ w1 ++ [sep] ++ w2), num.
    split; [now rewrite <- !app_assoc|]. split; [reflexivity|].
    repeat split; try assumption.
    apply linkb_parts. exists quote, w1, sep, w2. auto.
  - intros (lead & sym & link & num & -> & -> & Hlead & Hsym & Hlink & Hnum).
    apply linkb_parts in Hlink as (quote & w1 & sep & w2 & -> & Hq & Hw1 & Hsep & Hw2).
    rewrite <- !app_assoc.
    eapply L_seq; [apply lang_lead; eauto|].
    eapply L_seq; [apply (L_group _ sym [] []); apply lang_symbol; eauto|].
    eapply L_seq; [apply lang_lead; eauto|].
    eapply L_seq; [now apply L_star|].
    eapply L_seq; [now apply L_cls|].
    eapply L_seq; [now apply L_star|].
    apply (L_group _ num [sym] [sym]). apply lang_number. auto.
Qed.

(** ** One match *)

Lemma match_here_sound (r : regex) (s : text) (n : nat) (caps : list text) :
  match_here r s = Some (n, caps) ->
  exists pre s', s = pre ++ s' /\ n = List.length pre /\ lang r pre [] caps.
Proof.
  unfold match_here. intros Hm.
  apply match_at_sound in Hm as (pre & s' & caps' & -> & Hl & Hk).
  injection Hk as <- <-. exists pre, s'. split; [reflexivity|]. split; [|exact Hl].
  rewrite length_app. lia.
Qed.

Lemma match_here_complete (r : regex) (pre s' : text) (caps : list text) :
  lang r pre [] caps -> match_here r (pre ++ s') <> None.
Proof.
  intros Hl. unfold match_here. apply (match_at_complete _ _ _ _ Hl). discriminate.
Qed.

Lemma match_here_length (r : regex) (s : text) (n : nat) (caps : list text) :
  match_here r s = Some (n, caps) -> n <= List.length s.
Proof.
  intros Hm. apply match_here_sound in Hm as (pre & s' & -> & -> & _).
  rewrite length_app. lia.
Qed.

(** ** The scan *)

Section Scan.
Variable r : regex.

Lemma reported_in_shift (k pos : nat) (t : text) (m : re_match) :
  k <= List.length t ->
  reported_in r (pos + k) (skipn k t) m -> reported_in r pos t m.
Proof.
  intros Hk (i & Hs & Hi & Hstop & Hm). rewrite length_skipn in Hi, Hstop.
  exists (i + k). rewrite skipn_skipn in Hm.
  repeat split; try lia. exact Hm.
Qed.

(** Every match the scan reports is a match of [r] at its start. *)
Lemma scan_reported (fuel : nat) :
  forall (pos : nat) (t : text), Forall (reported_in r pos t) (scan r fuel pos t).
Proof.
  induction fuel as [|fuel IH]; intros pos t; cbn [scan]; [constructor|].
  destruct (match_here r t) as [[n caps]|] eqn:Hm.
  - pose proof (match_here_length _ _ _ _ Hm) as Hn.
    constructor.
    + exists 0. cbn [m_start m_stop m_groups skipn]. rewrite Nat.add_0_r.
      repeat split; try lia. now rewrite Nat.add_comm, Nat.add_sub.
    + destruct t as [|c t]; [constructor|].
      eapply Forall_impl; [|apply IH].
      intros m. apply reported_in_shift. cbn [List.length] in *. lia.
  - destruct t as [|c t]; [constructor|].
    eapply Forall_impl; [|apply IH].
    intros m. apply (reported_in_shift 1 pos (c :: t)). cbn [List.length]. lia.
Qed.

(** The matches come in order and do not overlap: each stops before the next
    one starts. *)
Lemma scan_ordered (fuel : nat) :
  forall (pos : nat) (t : text),
    StronglySorted (fun m m' => m_stop m <= m_start m') (scan r fuel pos t).
Proof.
  induction fuel as [|fuel IH]; intros pos t; cbn [scan]; [constructor|].
  destruct (match_here r t) as [[n caps]|] eqn:Hm.
  - destruct t as [|c t]; [repeat constructor|].
    constructor; [apply IH|].
    eapply Forall_impl; [|apply scan_reported].
    intros m (i & Hs & _). cbn [m_start m_stop]. lia.
  - destruct t as [|c t]; [constructor|apply IH].
Qed.

(** Wherever [r] matches, the scan has reported a match that starts there or
    one that runs over that position. *)
Lemma scan_covers (fuel : nat) :
  forall (pos : nat) (t : text) (i : nat),
    List.length t < fuel -> i <= List.length t ->
    match_here r (skipn i t) <> None ->
    Exists (fun m => m_start m = pos + i \/ m_start m < pos + i < m_stop m)
           (scan r fuel pos t).
Proof.
  induction fuel as [|fuel IH]; intros pos t i Hfuel Hi Hmatch; [lia|]. cbn [scan].
  destruct (match_here r t) as [[n caps]|] eqn:Hm.
  - destruct (Nat.lt_ge_cases i (Nat.max 1 n)) as [Hlt|Hge].
    + apply Exists_cons_hd. cbn [m_start m_stop]. lia.
    + destruct t as [|c t]; [cbn [List.length] in Hi; lia|].
      apply Exists_cons_tl.
      pose proof (match_here_length _ _ _ _ Hm) as Hn.
      assert (Hk : Nat.max 1 n <= List.length (c :: t)) by (cbn [List.length] in *; lia).
      specialize (IH (pos + Nat.max 1 n) (skipn (Nat.max 1 n) (c :: t))
                    (i - Nat.max 1 n)).
      rewrite length_skipn, skipn_skipn in IH.
      replace (i - Nat.max 1 n + Nat.max 1 n) with i in IH by lia.
      replace (pos + Nat.max 1 n + (i - Nat.max 1 n)) with (pos + i) in IH by lia.
      apply IH; [cbn [List.length] in *; lia|lia|exact Hmatch].
  - destruct i as [|i]; [cbn [skipn] in Hmatch; congruence|].
    destruct t as [|c t]; [cbn [List.length] in Hi; lia|].
    specialize (IH (pos + 1) t i). cbn [skipn List.length] in Hmatch, Hfuel, Hi.
    replace (pos + 1 + i) with (pos + S i) in IH by lia.
    apply IH; [lia|lia|exact Hmatch].
Qed.
End Scan.

(** ** Collecting the matches *)

Section DictUpdates.
Context {V : Type}.

Lemma dict_get_set_same (d : dict V) (k : string) (v : V) :
  dict_get (dict_set d k v) k = Some v.
Proof.
  induction d as [|[k' v'] d IH]; simpl.
  - now rewrite String.eqb_refl.
  - destruct (String.eqb k' k) eqn:E; simpl; now rewrite E.
Qed.

Lemma dict_get_set_other (d : dict V) (k k0 : string) (v : V) :
  k <> k0 -> dict_get (dict_set d k v) k0 = dict_get d k0.
Proof.
  intros Hne. induction d as [|[k' v'] d IH]; simpl.
  - destruct (String.eqb_spec k k0); [contradiction|reflexivity].
  - destruct (String.eqb_spec k' k) as [->|Hk]; simpl.
    + destruct (String.eqb_spec k k0); [contradiction|reflexivity].
    + now rewrite IH.
Qed.

Lemma existsb_keys (d : dict V) (k : string) :
  existsb (String.eqb k) (dict_keys d) = dict_mem d k.
Proof.
  unfold dict_mem. induction d as [|[k' v'] d IH]; simpl; [reflexivity|].
  rewrite (String.eqb_sym k k'). destruct (String.eqb k' k); [reflexivity|exact IH].
Qed.

Lemma dict_keys_set (d : dict V) (k : string) (v : V) :
  dict_keys (dict_set d k v)
  = if dict_mem d k then dict_keys d else dict_keys d ++ [k].
Proof.
  unfold dict_mem. induction d as [|[k' v'] d IH]; simpl; [reflexivity|].
  destruct (String.eqb k' k) eqn:E; simpl; [reflexivity|].
  rewrite IH. now destruct (dict_get d k).
Qed.
End DictUpdates.

Section CollectFacts.
Context {F : Type} `{Arith F}.

Lemma py_float_number (num : text) :
  numberb num = true -> py_float num = Some (decimal_value num).
Proof.
  unfold numberb, py_float, decimal_value.
  destruct (span is_digit num) as [ip r].
  destruct ip as [|d ds]; [discriminate|].
  destruct r as [|c fp]; simpl tl.
  - intros _. now rewrite app_nil_r.
  - intros Hn. apply andb_prop in Hn as [Hc Hfp].
    rewrite (span_all _ _ Hfp), Hc. reflexivity.
Qed.

Lemma fill_comp_dict_collect (ms : list (text * text)) :
  Forall (fun m => numberb (snd m) = true) ms ->
  forall d, fill_comp_dict ms d = Ok (collect_into d ms).
Proof.
  induction 1 as [|[elem val] ms Hn _ IH]; intros d; simpl; [reflexivity|].
  simpl in Hn. rewrite (py_float_number _ Hn). apply IH.
Qed.

Lemma collect_into_keys (ms : list (text * text)) :
  forall d, dict_keys (collect_into d ms)
            = first_occurrences (map symbol_of ms) (dict_keys d).
Proof.
  induction ms as [|m ms IH]; intros d; simpl; [reflexivity|].
  unfold collect_into in *. simpl. rewrite IH, dict_keys_set, existsb_keys.
  unfold symbol_of. now destruct (dict_mem d _).
Qed.

Lemma collect_into_untouched (ms : list (text * text)) (k : string) :
  ~ In k (map symbol_of ms) ->
  forall d, dict_get (collect_into d ms) k = dict_get d k.
Proof.
  induction ms as [|m ms IH]; intros Hn d; simpl; [reflexivity|].
  unfold collect_into in *. simpl. rewrite IH.
  - apply dict_get_set_other. intros Heq. apply Hn. now left.
  - intros Hin. apply Hn. now right.
Qed.

Lemma collect_into_app (ms1 ms2 : list (text * text)) (d : dict F) :
  collect_into d (ms1 ++ ms2) = collect_into (collect_into d ms1) ms2.
Proof. unfold collect_into. apply fold_left_app. Qed.

Lemma collect_into_cons (m : text * text) (ms : list (text * text)) (d : dict F) :
  collect_into d (m :: ms)
  = collect_into (dict_set d (symbol_of m) (decimal_value (snd m))) ms.
Proof. reflexivity. Qed.

(** the last pair written for a symbol decides its value *)
Lemma collect_into_last (ms1 ms2 : list (text * text)) (m : text * text) :
  ~ In (symbol_of m) (map symbol_of ms2) ->
  forall d, dict_get (collect_into d (ms1 ++ m :: ms2)) (symbol_of m)
            = Some (decimal_value (snd m)).
Proof.
  intros Hn d. rewrite collect_into_app, collect_into_cons.
  rewrite (collect_into_untouched _ _ Hn). apply dict_get_set_same.
Qed.

Lemma collect_into_length (ms : list (text * text)) :
  forall d, List.length d <= List.length (collect_into d ms).
Proof.
  assert (Hset : forall (d : dict F) k v, List.length d <= List.length (dict_set d k v)).
  { induction d as [|[k' v'] d IH]; intros k v; simpl; [lia|].
    destruct (String.eqb k' k); simpl; [lia|]. specialize (IH k v). lia. }
  induction ms as [|m ms IH]; intros d; simpl; [lia|].
  unfold collect_into in *. simpl. etransitivity; [apply Hset|apply IH].
Qed.

Lemma collect_nonempty (ms : list (text * text)) : ms <> [] -> collect ms <> [].
Proof.
  destruct ms as [|m ms]; [congruence|]. intros _ Hnil.
  unfold collect in Hnil. rewrite collect_into_cons in Hnil.
  pose proof (collect_into_length ms
                (dict_set [] (symbol_of m) (decimal_value (snd m)))) as Hlen.
  rewrite Hnil in Hlen. simpl in Hlen. lia.
Qed.
End CollectFacts.

(** ** The token scan *)

Lemma symbol_nonempty (sym : text) : symbolb sym = true -> 1 <= List.length sym.
Proof. destruct sym; simpl; [discriminate|lia]. Qed.

Lemma finditer_token_form (s : text) :
  Forall (fun m =>
            exists lead sym link num,
              firstn (m_stop m - m_start m) (skipn (m_start m) s)
              = lead ++ sym ++ link ++ num
              /\ m_groups m = [sym; num]
              /\ leadb lead = true /\ symbolb sym = true
              /\ linkb link = true /\ numberb num = true
              /\ m_start m < m_stop m <= List.length s)
         (finditer pattern s).
Proof.
  eapply Forall_impl; [|apply scan_reported].
  intros m (i & Hstart & Hi & Hstop & Hm). simpl in Hstart, Hstop. subst i.
  destruct (match_here_sound _ _ _ _ Hm) as (pre & s' & Hs & Hn & Hl).
  apply pattern_token_form in Hl as (lead & sym & link & num & -> & Hg & H1 & H2 & H3 & H4).
  exists lead, sym, link, num. rewrite Hs, Hn.
  rewrite firstn_app, Nat.sub_diag, firstn_all. simpl firstn. rewrite app_nil_r.
  repeat split; try assumption.
  apply symbol_nonempty in H2. rewrite !length_app in Hn. lia.
Qed.

Lemma findall_pairs (s : text) :
  Forall (fun m => symbolb (fst m) = true /\ numberb (snd m) = true)
         (findall pattern s).
Proof.
  unfold findall. apply Forall_map.
  eapply Forall_impl; [|apply finditer_token_form].
  intros m (lead & sym & link & num & _ & -> & _ & Hs & _ & Hn & _). simpl. auto.
Qed.

Lemma finditer_covers (s before token after : text) (caps : list text) :
  s = before ++ token ++ after -> lang pattern token [] caps ->
  Exists (fun m => m_start m = List.length before
                   \/ m_start m < List.length before < m_stop m)
         (finditer pattern s).
Proof.
  intros -> Hl. unfold finditer.
  apply (scan_covers pattern _ 0 _ (List.length before)).
  - lia.
  - rewrite length_app. lia.
  - rewrite skipn_app, Nat.sub_diag, skipn_all. simpl.
    now apply match_here_complete with (caps := caps).
Qed.

Section ParserFacts.
Context {F : Type} `{Arith F}.

Lemma token_scan_stage_collect (s : text) :
  token_scan_stage s
  = match findall pattern s with
    | [] => Raise UnrecognizedFormat
    | _ :: _ => Ok (as_pydict (collect (findall pattern s)))
    end.
Proof.
  unfold token_scan_stage. pose proof (findall_pairs s) as Hp.
  destruct (findall pattern s) as [|m ms]; [reflexivity|].
  rewrite fill_comp_dict_collect; [reflexivity|].
  eapply Forall_impl; [|exact Hp]. now intros ? [? ?].
Qed.

Lemma literal_stage_unbraced (py_eval : text -> option (pyval F)) (s : text) :
  startswith (strip s) "{" && endswith (strip s) "}" = false ->
  literal_stage py_eval s = None.
Proof. unfold literal_stage. now intros ->. Qed.

Lemma literal_stage_raised (py_eval : text -> option (pyval F)) (s : text) :
  py_eval (strip s) = None -> literal_stage py_eval s = None.
Proof.
  unfold literal_stage. intros ->. now destruct (_ && _).
Qed.

Lemma as_pydict_nil (d : dict F) : as_pydict d = [] -> d = [].
Proof. destruct d; [reflexivity|discriminate]. Qed.
End ParserFacts.

(** ** The digits the matcher takes *)

Lemma match_star_total {A : Type} (p : ascii -> bool) (k : text -> option A) :
  (forall s', k s' <> None) ->
  forall s, match_star p k s = k (snd (span p s)).
Proof.
  intros Htot. induction s as [|c s IH]; simpl; [reflexivity|].
  destruct (p c); [|reflexivity].
  rewrite IH. destruct (span p s) as [a b]. simpl.
  specialize (Htot b). now destruct (k b).
Qed.

Lemma match_fraction_total {A : Type} (s : text) (caps : list text)
  (k : text -> list text -> option A) :
  (forall s' caps', k s' caps' <> None) ->
  match_at (Seq (Opt (Cls is_dot)) (Star is_digit)) s caps k
  = k (number_rest s) caps.
Proof.
  intros Htot. cbn [match_at].
  assert (Hstar : forall t, match_star is_digit (fun s' => k s' caps) t
                            = k (snd (span is_digit t)) caps)
    by (apply match_star_total; intros s'; apply Htot).
  unfold number_rest. destruct s as [|c s']; [now rewrite Hstar|].
  destruct (is_dot c).
  - rewrite Hstar. specialize (Htot (snd (span is_digit s')) caps).
    now destruct (k _ caps).
  - now rewrite Hstar.
Qed.

Lemma match_number_total {A : Type} (s : text) (caps : list text)
  (k : text -> list text -> option A) :
  (forall s' caps', k s' caps' <> None) ->
  match_at (Seq (Plus is_digit) (Seq (Opt (Cls is_dot)) (Star is_digit))) s caps k
  = match s with
    | c :: s' =>
        if is_digit c then k (number_rest (snd (span is_digit s'))) caps else None
    | [] => None
    end.
Proof.
  intros Htot. unfold Plus.
  change (match_at (Seq (Seq (Cls is_digit) (Star is_digit))
                        (Seq (Opt (Cls is_dot)) (Star is_digit))) s caps k)
    with (match s with
          | c :: s' =>
              if is_digit c
              then match_star is_digit
                     (fun s1 => match_at (Seq (Opt (Cls is_dot)) (Star is_digit)) s1 caps k)
                     s'
              else None
          | [] => None
          end).
  destruct s as [|c s']; [reflexivity|]. destruct (is_digit c); [|reflexivity].
  rewrite match_star_total.
  - now apply match_fraction_total.
  - intros t. rewrite match_fraction_total by exact Htot. apply Htot.
Qed.

Lemma span_rest_head (p : ascii -> bool) (s : text) :
  match snd (span p s) with
  | c :: _ => p c = false
  | [] => True
  end.
Proof.
  induction s as [|c s IH]; simpl; [exact I|].
  destruct (p c) eqn:Hc; [|simpl; exact Hc].
  destruct (span p s) as [a b]. exact IH.
Qed.

Lemma span_rest_suffix (p : ascii -> bool) (s : text) :
  exists pre, s = pre ++ snd (span p s).
Proof. exists (fst (span p s)). apply span_split. Qed.

Lemma number_rest_head (s : text) :
  match number_rest s with
  | c :: _ => is_digit c = false
  | [] => True
  end.
Proof.
  unfold number_rest. destruct s as [|c s']; [exact I|].
  destruct (is_dot c); apply span_rest_head.
Qed.

Lemma number_rest_suffix (s : text) : exists pre, s = pre ++ number_rest s.
Proof.
  unfold number_rest. destruct s as [|c s']; [now exists []|].
  destruct (is_dot c).
  - destruct (span_rest_suffix is_digit s') as [pre Hpre].
    exists (c :: pre). simpl. now rewrite <- Hpre.
  - apply span_rest_suffix.
Qed.

Lemma skipn_consumed (pre rest : text) :
  skipn (List.length (pre ++ rest) - List.length rest) (pre ++ rest) = rest.
Proof.
  rewrite length_app, Nat.add_sub. rewrite skipn_app, Nat.sub_diag, skipn_all.
  reflexivity.
Qed.

Lemma match_seq_sound {A : Type} (r1 r2 : regex) (s : text) (caps : list text)
  (k : text -> list text -> option A) (a : A) :
  match_at (Seq r1 r2) s caps k = Some a ->
  exists pre s1 caps1, s = pre ++ s1 /\ match_at r2 s1 caps1 k = Some a.
Proof.
  intros Hm. cbn [match_at] in Hm.
  apply match_at_sound in Hm as (pre & s1 & caps1 & Hs & _ & Hk).
  now exists pre, s1, caps1.
Qed.

(** What is left after a match of the pattern does not start with a digit. *)
Lemma match_here_rest (s : text) (n : nat) (caps : list text) :
  match_here pattern s = Some (n, caps) ->
  match skipn n s with
  | c :: _ => is_digit c = false
  | [] => True
  end.
Proof.
  unfold match_here, pattern. intros Hm.
  apply match_seq_sound in Hm as (p1 & s1 & c1 & Hs1 & Hm).
  apply match_seq_sound in Hm as (p2 & s2 & c2 & Hs2 & Hm).
  apply match_seq_sound in Hm as (p3 & s3 & c3 & Hs3 & Hm).
  apply match_seq_sound in Hm as (p4 & s4 & c4 & Hs4 & Hm).
  apply match_seq_sound in Hm as (p5 & s5 & c5 & Hs5 & Hm).
  apply match_seq_sound in Hm as (p6 & s6 & c6 & Hs6 & Hm).
  change (match_at (Seq (Plus is_digit) (Seq (Opt (Cls is_dot)) (Star is_digit)))
            s6 c6
            (fun s' caps' =>
               Some (List.length s - List.length s',
                     caps' ++ [firstn (List.length s6 - List.length s') s6]))
          = Some (n, caps)) in Hm.
  rewrite match_number_total in Hm by discriminate.
  destruct s6 as [|c s']; [discriminate|]. destruct (is_digit c); [|discriminate].
  injection Hm as <- _.
  pose proof (number_rest_head (snd (span is_digit s'))) as Hhead.
  destruct (span_rest_suffix is_digit s') as [a Ha].
  destruct (number_rest_suffix (snd (span is_digit s'))) as [b Hb].
  set (rest := number_rest (snd (span is_digit s'))) in *.
  assert (Hs : s = (p1 ++ p2 ++ p3 ++ p4 ++ p5 ++ p6 ++ c :: a ++ b) ++ rest).
  { rewrite Hs1, Hs2, Hs3, Hs4, Hs5, Hs6, Ha, Hb.
    rewrite <- !app_assoc. simpl. now rewrite <- !app_assoc. }
  rewrite Hs, skipn_consumed. exact Hhead.
Qed.

(** ** The longest decimal at a place *)

Lemma span_app_all (p : ascii -> bool) (a b : text) :
  forallb p a = true ->
  span p (a ++ b) = (a ++ fst (span p b), snd (span p b)).
Proof.
  induction a as [|x a IH]; simpl; intros Hall.
  - now destruct (span p b).
  - apply andb_prop in Hall as [Hx Hall]. now rewrite Hx, IH.
Qed.

(** A text is the longest decimal it starts with, followed by what the
    matcher leaves of it. *)
Lemma longest_number_split (t : text) :
  t = longest_number t ++ number_rest (snd (span is_digit t)).
Proof.
  unfold longest_number.
  destruct (span_split is_digit t) as [Hs _].
  pose proof (span_rest_head is_digit t) as Hh.
  destruct (span is_digit t) as [ip r]. simpl in *.
  destruct r as [|c r']; [exact Hs|].
  unfold number_rest. destruct (is_dot c).
  - destruct (span_split is_digit r') as [Hr _].
    rewrite <- app_assoc. simpl. now rewrite <- Hr.
  - simpl. now rewrite Hh.
Qed.

(** No decimal a text starts with is longer than [longest_number]. *)
Lemma longest_number_max (t num tail : text) :
  numberb num = true -> t = num ++ tail ->
  List.length num <= List.length (longest_number t).
Proof.
  unfold numberb. intros Hnum ->.
  destruct (span_split is_digit num) as [Hs Hall].
  pose proof (span_rest_head is_digit num) as Hh.
  destruct (span is_digit num) as [ip r]. simpl in *.
  destruct ip as [|d ds]; [discriminate|].
  unfold longest_number. destruct r as [|c fp].
  - assert (E : num ++ tail = (d :: ds) ++ tail)
      by (rewrite Hs; now rewrite app_nil_r).
    assert (Hlen : List.length num = List.length (d :: ds))
      by (rewrite Hs; now rewrite app_nil_r).
    rewrite E, Hlen, (span_app_all _ _ tail Hall).
    destruct (snd (span is_digit tail)) as [|c r']; [|destruct (is_dot c)];
      rewrite ?length_app; simpl; lia.
  - apply andb_prop in Hnum as [Hc Hfp].
    assert (E : num ++ tail = (d :: ds) ++ c :: (fp ++ tail))
      by (rewrite Hs; simpl; now rewrite <- app_assoc).
    assert (Hlen : List.length num
                   = List.length (d :: ds) + S (List.length fp))
      by (rewrite Hs; simpl; rewrite length_app; simpl; lia).
    rewrite E, Hlen, (span_stop _ _ _ _ Hall Hh), Hc,
      (span_app_all _ _ tail Hfp).
    simpl fst. rewrite !length_app. simpl. rewrite !length_app. lia.
Qed.

Lemma firstn_consumed_eq (t pre rest : text) :
  t = pre ++ rest -> firstn (List.length t - List.length rest) t = pre.
Proof. intros ->. apply firstn_consumed. Qed.

(** The second group of a match of the pattern is the longest decimal at
    the place where it starts, and the match stops where that decimal
    stops. *)
Lemma match_here_number (s : text) (n : nat) (caps : list text) :
  match_here pattern s = Some (n, caps) ->
  exists before t,
    s = before ++ t
    /\ n = List.length before + List.length (longest_number t)
    /\ last caps [] = longest_number t.
Proof.
  unfold match_here, pattern. intros Hm.
  apply match_seq_sound in Hm as (p1 & s1 & c1 & Hs1 & Hm).
  apply match_seq_sound in Hm as (p2 & s2 & c2 & Hs2 & Hm).
  apply match_seq_sound in Hm as (p3 & s3 & c3 & Hs3 & Hm).
  apply match_seq_sound in Hm as (p4 & s4 & c4 & Hs4 & Hm).
  apply match_seq_sound in Hm as (p5 & s5 & c5 & Hs5 & Hm).
  apply match_seq_sound in Hm as (p6 & s6 & c6 & Hs6 & Hm).
  change (match_at (Seq (Plus is_digit) (Seq (Opt (Cls is_dot)) (Star is_digit)))
            s6 c6
            (fun s' caps' =>
               Some (List.length s - List.length s',
                     caps' ++ [firstn (List.length s6 - List.length s') s6]))
          = Some (n, caps)) in Hm.
  rewrite match_number_total in Hm by discriminate.
  pose proof (longest_number_split s6) as Hsplit.
  destruct s6 as [|c s'] eqn:Es6; [discriminate|].
  destruct (is_digit c) eqn:Hc; [|discriminate].
  assert (Hrest : snd (span is_digit (c :: s')) = snd (span is_digit s'))
    by (simpl; rewrite Hc; now destruct (span is_digit s')).
  rewrite Hrest in Hsplit. rewrite <- Es6 in *.
  remember (longest_number s6) as num eqn:Hnum.
  set (rest := number_rest (snd (span is_digit s'))) in *.
  injection Hm as Hn Hcaps.
  exists (p1 ++ p2 ++ p3 ++ p4 ++ p5 ++ p6), s6.
  rewrite <- Hnum. split; [|split].
  - rewrite Hs1, Hs2, Hs3, Hs4, Hs5, Hs6. now rewrite <- !app_assoc.
  - rewrite <- Hn, Hs1, Hs2, Hs3, Hs4, Hs5, Hs6. rewrite Hsplit at 1.
    rewrite !length_app. lia.
  - rewrite <- Hcaps, (firstn_consumed_eq _ _ _ Hsplit). apply last_last.
Qed.

Lemma skipn_head_nth_error {A : Type} (l : list A) (n : nat) (c : A) :
  nth_error l n = Some c -> exists rest, skipn n l = c :: rest.
Proof.
  revert l. induction n as [|n IH]; intros [|x l] Hn; simpl in *;
    try discriminate.
  - injection Hn as ->. now exists l.
  - now apply IH.
Qed.

(** The second group of every match the scan reports is the longest decimal
    of the text at the place where the group starts. *)
Lemma finditer_longest_number (s : text) :
  Forall (fun m => nth 1 (m_groups m) []
                   = longest_number (nth 1 (m_groups m) [] ++ skipn (m_stop m) s))
         (finditer pattern s).
Proof.
  pose proof (scan_reported pattern (S (List.length s)) 0 s) as Hrep.
  pose proof (finditer_token_form s) as Hform.
  unfold finditer in *. rewrite Forall_forall in Hrep, Hform |- *.
  intros m Hin.
  destruct (Hrep m Hin) as (i & Hstart & _ & _ & Hm).
  destruct (Hform m Hin) as (_ & sym & _ & num & _ & Hg & _ & _ & _ & _ & Hlt & _).
  simpl in Hstart. subst i.
  apply match_here_number in Hm as (before & t & Hs & Hn & Hlast).
  rewrite Hg in Hlast |- *. simpl in Hlast. simpl nth.
  pose proof (longest_number_split t) as Hsplit.
  rewrite <- Hlast in Hsplit, Hn.
  remember (number_rest (snd (span is_digit t))) as rest eqn:Hrest.
  assert (Hstop : skipn (m_stop m) s = rest).
  { replace (m_stop m) with ((m_stop m - m_start m) + m_start m) by lia.
    rewrite <- skipn_skipn, Hs, Hn, Hsplit, app_assoc.
    rewrite <- length_app. rewrite skipn_app, Nat.sub_diag, skipn_all.
    reflexivity. }
  rewrite Hstop, <- Hsplit. exact Hlast.
Qed.

(** Hence no decimal that can be read at that place is longer than the
    group. *)
Lemma finditer_number_maximal (s : text) :
  Forall (fun m => forall num' tail,
              numberb num' = true ->
              nth 1 (m_groups m) [] ++ skipn (m_stop m) s = num' ++ tail ->
              List.length num' <= List.length (nth 1 (m_groups m) []))
         (finditer pattern s).
Proof.
  eapply Forall_impl; [|apply finditer_longest_number].
  intros m Hm num' tail Hnum Ht. rewrite Hm.
  now apply longest_number_max with (tail := tail).
Qed.

(** The pairs of [findall] are the groups of the matches of [finditer], one
    for one. *)
Lemma findall_groups (s : text) :
  Forall2 (fun m p => m_groups m = [fst p; snd p])
          (finditer pattern s) (findall pattern s).
Proof.
  unfold findall. pose proof (finditer_token_form s) as Hform.
  induction Hform as [|m ms (_ & sym & _ & num & _ & Hg & _) _ IH]; simpl;
    constructor; [|exact IH].
  now rewrite Hg.
Qed.

(** *** The value a decimal writes *)

Lemma digits_fold (ds : text) (acc : Z) :
  fold_left (fun acc c => 10 * acc + digit_value c)%Z ds acc
  = (acc * 10 ^ Z.of_nat (List.length ds) + Z_of_digits ds)%Z.
Proof.
  unfold Z_of_digits. revert acc.
  induction ds as [|d ds IH]; intros acc.
  - simpl. lia.
  - cbn [fold_left List.length]. rewrite IH, (IH (10 * 0 + digit_value d)%Z).
    rewrite Nat2Z.inj_succ, Z.pow_succ_r by lia. lia.
Qed.

Lemma Z_of_digits_app (a b : text) :
  Z_of_digits (a ++ b)
  = (Z_of_digits a * 10 ^ Z.of_nat (List.length b) + Z_of_digits b)%Z.
Proof.
  unfold Z_of_digits at 1. rewrite fold_left_app.
  fold (Z_of_digits a). apply digits_fold.
Qed.

Lemma decimal_value_real (int_part frac_part : text) (point : ascii) :
  forallb is_digit int_part = true -> forallb is_digit frac_part = true ->
  is_dot point = true ->
  @decimal_value R _ int_part = IZR (Z_of_digits int_part)
  /\ @decimal_value R _ (int_part ++ point :: frac_part)
     = (IZR (Z_of_digits int_part)
        + IZR (Z_of_digits frac_part) / 10 ^ List.length frac_part)%R.
Proof.
  intros Hi Hf Hp.
  pose proof (dot_not_digit _ Hp) as Hnd.
  unfold decimal_value. rewrite (span_all _ _ Hi), (span_stop _ _ _ _ Hi Hnd).
  simpl tl. rewrite app_nil_r. simpl f_decimal. unfold real_of_decimal.
  split.
  - simpl. field.
  - rewrite Z_of_digits_app, plus_IZR, mult_IZR.
    rewrite <- pow_IZR. field. apply pow_nonzero. lra.
Qed.

(** ** The parser's claims *)

(** C6.  The token scan.  For every input string:
    - every match the scan reports is a token: possibly a quote, a symbol of
      one or two letters (group 1), a link made of a separator [:] or [=]
      with optional quote and blanks around it, and a non-negative decimal
      (group 2); it is not empty and lies within the string;
    - group 2 is the whole decimal written at its place: no text of the form
      of a decimal that starts where group 2 starts is longer, so neither
      the digits nor the fraction are cut short;
    - the matches are reported in order of appearance and do not overlap;
    - every place of the string where a token starts is the start of a
      reported match or lies inside one;
    - the pairs [re.findall] returns are the two groups of these matches,
      one for one and in the same order;
    - the stage raises the format error when there is no match, and
      otherwise returns the mapping the pairs are collected into, whose keys
      are the symbols in order of first appearance and in which the last
      pair of a symbol decides its value, the number its decimal writes.
    In exact arithmetic the value of a decimal is its integer part plus its
    fraction over the power of ten of its length.  In binary64, whatever
    [eval] is, parsing [Fe: 98.0, C: 2.0] returns [{Fe: 98.0, C: 2.0}] and
    parsing [Fe: 97.5, C: 2.5] returns [{Fe: 97.5, C: 2.5}], in that
    order. *)
Theorem C6_token_scan :
  (forall (F : Type) (A : Arith F) (user_str : text),
      Forall (fun m =>
                exists lead sym link num,
                  firstn (m_stop m - m_start m) (skipn (m_start m) user_str)
                  = lead ++ sym ++ link ++ num
                  /\ m_groups m = [sym; num]
                  /\ leadb lead = true /\ symbolb sym = true
                  /\ linkb link = true /\ numberb num = true
                  /\ m_start m < m_stop m <= List.length user_str
                  /\ (forall num' tail,
                         numberb num' = true ->
                         num ++ skipn (m_stop m) user_str = num' ++ tail ->
                         List.length num' <= List.length num))
             (finditer pattern user_str)
      /\ StronglySorted (fun m m' => m_stop m <= m_start m') (finditer pattern user_str)
      /\ (forall before lead sym link num after,
             user_str = before ++ (lead ++ sym ++ link ++ num) ++ after ->
             leadb lead = true -> symbolb sym = true ->
             linkb link = true -> numberb num = true ->
             Exists (fun m => m_start m = List.length before
                              \/ m_start m < List.length before < m_stop m)
                    (finditer pattern user_str))
      /\ Forall2 (fun m p => m_groups m = [fst p; snd p])
                 (finditer pattern user_str) (findall pattern user_str)
      /\ token_scan_stage user_str
         = match findall pattern user_str with
           | [] => Raise UnrecognizedFormat
           | _ :: _ => Ok (as_pydict (collect (findall pattern user_str)))
           end
      /\ dict_keys (@collect F A (findall pattern user_str))
         = first_occurrences (map symbol_of (findall pattern user_str)) []
      /\ (forall ms1 m ms2,
             findall pattern user_str = ms1 ++ m :: ms2 ->
             ~ In (symbol_of m) (map symbol_of ms2) ->
             dict_get (@collect F A (findall pattern user_str)) (symbol_of m)
             = Some (decimal_value (snd m))))
  /\ (forall (int_part frac_part : text) (point : ascii),
         forallb is_digit int_part = true ->
         forallb is_digit frac_part = true ->
         is_dot point = true ->
         @decimal_value R _ int_part = IZR (Z_of_digits int_part)
         /\ @decimal_value R _ (int_part ++ point :: frac_part)
            = (IZR (Z_of_digits int_part)
               + IZR (Z_of_digits frac_part) / 10 ^ List.length frac_part)%R)
  /\ (forall py_eval : text -> option (pyval float),
         parse_composition_input py_eval scan_input
         = Ok [(PyStr "Fe", PyFloat (f_decimal 980 1));
               (PyStr "C", PyFloat (f_decimal 20 1))])
  /\ (forall py_eval : text -> option (pyval float),
         parse_composition_input py_eval fraction_input
         = Ok [(PyStr "Fe", PyFloat (f_decimal 975 1));
               (PyStr "C", PyFloat (f_decimal 25 1))]).
Proof.
  split; [|split; [|split]].
  - intros F A user_str.
    split.
    { pose proof (Forall_and (finditer_token_form user_str)
                    (finditer_number_maximal user_str)) as Hboth.
      eapply Forall_impl; [|exact Hboth].
      intros m [(lead & sym & link & num & Hslice & Hg & H1 & H2 & H3 & H4 & Hlt)
                  Hmax].
      exists lead, sym, link, num. rewrite Hg in Hmax. simpl nth in Hmax.
      repeat split; try assumption; apply Hlt. }
    split; [apply scan_ordered|].
    split.
    { intros before lead sym link num after Hs H1 H2 H3 H4.
      apply (finditer_covers _ _ _ _ [sym; num] Hs).
      apply pattern_token_form. exists lead, sym, link, num. auto 7. }
    split; [apply findall_groups|].
    split; [apply token_scan_stage_collect|].
    split; [apply (collect_into_keys _ [])|].
    intros ms1 m ms2 -> Hn. now apply (collect_into_last ms1 ms2 m).
  - intros int_part frac_part point. apply decimal_value_real.
  - intros py_eval. unfold parse_composition_input.
    rewrite literal_stage_unbraced by (vm_compute; reflexivity).
    vm_compute. reflexivity.
  - intros py_eval. unfold parse_composition_input.
    rewrite literal_stage_unbraced by (vm_compute; reflexivity).
    vm_compute. reflexivity.
Qed.

(** C7 as stated fails: on [{}] neither rule yields a pair, but [eval]
    returns an empty dict, which the parser returns instead of failing. *)
Lemma C7_empty_literal_counterexample :
  @parse_composition_input float _ eval_display empty_literal_input = Ok []
  /\ findall pattern empty_literal_input = [].
Proof. split; vm_compute; reflexivity. Qed.

(** C7, as the code has it.  The parser fails, with the format error,
    exactly when the literal stage does not come back with a dict (of any
    size) and the scan has no match; it raises nothing else.  An empty
    mapping can only come from the literal stage: the scan never returns one.
    Whatever [eval] is, [gibberish] is refused. *)
Theorem C7_parse_error :
  (forall (F : Type) (A : Arith F) (py_eval : text -> option (pyval F))
          (user_str : text),
      (parse_composition_input py_eval user_str = Raise UnrecognizedFormat
       <-> literal_stage py_eval user_str = None
           /\ findall pattern user_str = [])
      /\ (forall e, parse_composition_input py_eval user_str = Raise e ->
                    e = UnrecognizedFormat)
      /\ (parse_composition_input py_eval user_str = Ok [] ->
          literal_stage py_eval user_str = Some []))
  /\ (forall py_eval : text -> option (pyval float),
         parse_composition_input py_eval gibberish = Raise UnrecognizedFormat).
Proof.
  split.
  - intros F A py_eval user_str. unfold parse_composition_input.
    rewrite token_scan_stage_collect.
    destruct (literal_stage py_eval user_str) as [items|].
    + split; [split; [discriminate|intros [? _]; discriminate]|].
      split; [discriminate|]. now intros [= ->].
    + destruct (findall pattern user_str) as [|m ms] eqn:Hms.
      * split; [split; auto|]. split; [now intros e [= <-]|discriminate].
      * split; [split; [discriminate|intros [_ ?]; discriminate]|].
        split; [discriminate|]. intros [= Hnil]. apply as_pydict_nil in Hnil.
        exfalso. revert Hnil. now apply collect_nonempty.
  - intros py_eval. unfold parse_composition_input.
    rewrite literal_stage_unbraced by (vm_compute; reflexivity).
    vm_compute. reflexivity.
Qed.

(** C8 as stated fails: the dict [eval] returns is handed back as it is.
    The values of [{"Fe": 98, "C": 2}] stay integers, and the key of
    [{1: 100.0}] stays an integer. *)
Lemma C8_no_coercion_counterexample :
  @parse_composition_input float _ eval_display integer_literal_input
  = Ok [(PyStr "Fe", PyInt 98); (PyStr "C", PyInt 2)]
  /\ @parse_composition_input float _ eval_display integer_key_input
     = Ok [(PyInt 1, PyFloat (f_decimal 1000 1))].
Proof. split; vm_compute; reflexivity. Qed.

(** C8, as the code has it.  When the stripped input is delimited by braces
    and [eval] returns a dict for it, the parser returns that dict, keys and
    values as evaluated. *)
Theorem C8_literal_returned_as_is (F : Type) (A : Arith F)
  (py_eval : text -> option (pyval F)) (user_str : text) (items : pydict F) :
  startswith (strip user_str) "{" = true ->
  endswith (strip user_str) "}" = true ->
  py_eval (strip user_str) = Some (PyDict items) ->
  parse_composition_input py_eval user_str = Ok items.
Proof.
  intros Hs He Hv. unfold parse_composition_input, literal_stage.
  now rewrite Hs, He, Hv.
Qed.

(** The literal [{"Fe": 98.0, "C": 2.0}] gives [{Fe: 98.0, C: 2.0}]. *)
Lemma C8_literal_returned_as_is_witness :
  @parse_composition_input float _ eval_display literal_input
  = Ok [(PyStr "Fe", PyFloat (f_decimal 980 1));
        (PyStr "C", PyFloat (f_decimal 20 1))].
Proof.
  apply (C8_literal_returned_as_is float float_arith eval_display literal_input);
    vm_compute; reflexivity.
Defined.

(** C9.  When [eval] raises on the stripped input, the parser's outcome is
    that of the token scan alone: the mapping collected from the matches,
    or the format error when there is none. *)
Theorem C9_literal_failure_swallowed (F : Type) (A : Arith F)
  (py_eval : text -> option (pyval F)) (user_str : text) :
  py_eval (strip user_str) = None ->
  parse_composition_input py_eval user_str = token_scan_stage user_str
  /\ parse_composition_input py_eval user_str
     = match findall pattern user_str with
       | [] => Raise UnrecognizedFormat
       | _ :: _ => Ok (as_pydict (collect (findall pattern user_str)))
       end.
Proof.
  intros Hraise. unfold parse_composition_input.
  rewrite (literal_stage_raised _ _ Hraise).
  split; [reflexivity|apply token_scan_stage_collect].
Qed.

(** On [{Fe: 98.0, C: 2.0}] the evaluation of the literal fails, and the scan
    reads the two tokens. *)
Lemma C9_literal_failure_swallowed_witness :
  @parse_composition_input float _ eval_display bare_names_input
  = Ok [(PyStr "Fe", PyFloat (f_decimal 980 1));
        (PyStr "C", PyFloat (f_decimal 20 1))].
Proof.
  destruct (C9_literal_failure_swallowed float float_arith eval_display
              bare_names_input) as [Hscan _].
  - vm_compute. reflexivity.
  - rewrite Hscan. vm_compute. reflexivity.
Defined.

(** * Further properties of the converter *)

Section ConverterOutcomes.
Context {F : Type} `{Arith F}.
Variable table : dict F.

Lemma check_raises (c : dict F) (mode : string) :
  f_leb (f_abs (f_sub (py_sum (dict_values c)) f_hundred)) f_tol = false ->
  check_input_composition c mode = Raise (SumError (py_sum (dict_values c))).
Proof. unfold check_input_composition. now intros ->. Qed.

Lemma check_ok_inv (c : dict F) (mode : string) :
  check_input_composition c mode = Ok tt -> sums_to_100 c.
Proof.
  unfold check_input_composition, sums_to_100.
  now destruct (f_leb _ _).
Qed.

Lemma wt_to_at_loop_inv (items : dict F) :
  forall acc d, wt_to_at_loop table items acc = Ok d ->
                all_known table items /\ masses_nonzero table items.
Proof.
  induction items as [|[k v] rest IH]; intros acc d Hd.
  - split; constructor.
  - simpl in Hd. destruct (dict_get table k) as [m|] eqn:Hk; [|discriminate].
    unfold py_div in Hd. destruct (f_is_zero m) eqn:Hz; [discriminate|].
    simpl in Hd. destruct (IH _ _ Hd) as [Hknown Hmass]. split.
    + constructor; [|exact Hknown]. cbn [fst]. unfold dict_mem. now rewrite Hk.
    + constructor; [|exact Hmass]. cbn [fst]. unfold molar_mass. now rewrite Hk.
Qed.

Lemma at_to_wt_loop_inv (items : dict F) :
  forall acc d, at_to_wt_loop table items acc = Ok d -> all_known table items.
Proof.
  induction items as [|[k v] rest IH]; intros acc d Hd.
  - constructor.
  - simpl in Hd. destruct (dict_get table k) as [m|] eqn:Hk; [|discriminate].
    constructor; [|now apply (IH _ _ Hd)]. cbn [fst]. unfold dict_mem. now rewrite Hk.
Qed.

Lemma percent_comprehension_inv (items acc d : dict F) (total : F) :
  percent_comprehension items total acc = Ok d ->
  items = [] \/ f_is_zero total = false.
Proof.
  destruct items as [|[k v] rest]; [now left|]. simpl. unfold py_div.
  destruct (f_is_zero total); [discriminate|now right].
Qed.

Lemma percent_comprehension_raises (items : dict F) (total : F) :
  forall acc e, percent_comprehension items total acc = Raise e ->
                e = ZeroDivisionError.
Proof.
  induction items as [|[k v] rest IH]; intros acc e He; simpl in He; [discriminate|].
  unfold py_div in He. destruct (f_is_zero total).
  - simpl in He. now injection He as <-.
  - simpl in He. now apply (IH _ _ He).
Qed.

Lemma wt_to_at_loop_raises (items : dict F) :
  forall acc e, wt_to_at_loop table items acc = Raise e ->
    (exists k, e = MissingElement k /\ In k (dict_keys items)
               /\ dict_mem table k = false)
    \/ e = ZeroDivisionError.
Proof.
  induction items as [|[k v] rest IH]; intros acc e He; simpl in He; [discriminate|].
  destruct (dict_get table k) as [m|] eqn:Hk.
  - unfold py_div in He. destruct (f_is_zero m).
    + simpl in He. right. now injection He as <-.
    + simpl in He. destruct (IH _ _ He) as [(k' & -> & Hin & Hmiss)| ->]; [|now right].
      left. exists k'. simpl. auto.
  - left. exists k. injection He as <-. simpl. unfold dict_mem. rewrite Hk. auto.
Qed.

Lemma at_to_wt_loop_raises (items : dict F) :
  forall acc e, at_to_wt_loop table items acc = Raise e ->
    exists k, e = MissingElement k /\ In k (dict_keys items)
              /\ dict_mem table k = false.
Proof.
  induction items as [|[k v] rest IH]; intros acc e He; simpl in He; [discriminate|].
  destruct (dict_get table k) as [m|] eqn:Hk.
  - destruct (IH _ _ He) as (k' & -> & Hin & Hmiss). exists k'. simpl. auto.
  - exists k. injection He as <-. simpl. unfold dict_mem. rewrite Hk. auto.
Qed.

Lemma wt_to_at_loop_zero_mass (pre post acc : dict F) (k : string) (v m : F) :
  all_known table pre -> masses_nonzero table pre ->
  dict_get table k = Some m -> f_is_zero m = true ->
  wt_to_at_loop table (pre ++ (k, v) :: post) acc = Raise ZeroDivisionError.
Proof.
  revert acc. induction pre as [|[k' v'] pre IH]; intros acc Hk Hm Hget Hz; simpl.
  - rewrite Hget. unfold py_div. now rewrite Hz.
  - inversion Hk as [|? ? Hk1 Hk2]; subst. inversion Hm as [|? ? Hm1 Hm2]; subst.
    rewrite (known_mass _ _ Hk1), (py_div_ok _ _ Hm1). simpl. now apply IH.
Qed.
End ConverterOutcomes.

(** X1.  [wt_to_at] returns exactly when the composition passes the sum
    validation, every symbol is in the table with a mass that is not zero,
    and the molar amounts do not total zero (or there is no element at all);
    what it returns is then the specification's formula.  The composition is
    a dict: its symbols are distinct. *)
Theorem X1_wt_to_at_returns_iff (F : Type) (A : Arith F) (table wt : dict F) :
  dict_wf wt ->
  ((exists out, wt_to_at table wt = Ok out)
   <-> sums_to_100 wt /\ all_known table wt /\ masses_nonzero table wt
       /\ (wt = [] \/ f_is_zero (py_sum (map (molar_amount table) wt)) = false))
  /\ (forall out, wt_to_at table wt = Ok out ->
                  out = weightToAtomic_spec table wt).
Proof.
  intros Hwf.
  assert (Hinv : forall out, wt_to_at table wt = Ok out ->
            sums_to_100 wt /\ all_known table wt /\ masses_nonzero table wt
            /\ (wt = [] \/ f_is_zero (py_sum (map (molar_amount table) wt)) = false)).
  { intros out Hout. unfold wt_to_at in Hout.
    destruct (check_input_composition wt "wt") as [[]|e] eqn:Hc; [|discriminate].
    apply check_ok_inv in Hc. simpl in Hout.
    destruct (wt_to_at_loop table wt []) as [d|e] eqn:Hl; [|discriminate].
    destruct (wt_to_at_loop_inv _ _ _ _ Hl) as [Hk Hm]. simpl in Hout.
    rewrite (wt_to_at_loop_ok table wt [] Hwf Hk Hm) in Hl. injection Hl as <-.
    simpl in Hout. rewrite values_of_amounts in Hout.
    apply percent_comprehension_inv in Hout as [Hnil|Hz].
    - apply map_eq_nil in Hnil. auto.
    - auto. }
  assert (Hret : sums_to_100 wt -> all_known table wt -> masses_nonzero table wt ->
                 wt = [] \/ f_is_zero (py_sum (map (molar_amount table) wt)) = false ->
                 wt_to_at table wt = Ok (weightToAtomic_spec table wt)).
  { intros Hs Hk Hm [-> |Hz].
    - unfold wt_to_at. now rewrite (check_ok _ _ Hs).
    - now apply wt_to_at_spec. }
  split; [split|].
  - intros [out Hout]. now apply (Hinv out).
  - intros (Hs & Hk & Hm & Hz). eexists. now apply Hret.
  - intros out Hout. destruct (Hinv _ Hout) as (Hs & Hk & Hm & Hz).
    rewrite (Hret Hs Hk Hm Hz) in Hout. now injection Hout.
Qed.

(** The steel composition, in binary64 with the built-in table. *)
Lemma X1_wt_to_at_returns_iff_witness :
  ((exists out, wt_to_at float_table steel = Ok out)
   <-> sums_to_100 steel /\ all_known float_table steel
       /\ masses_nonzero float_table steel
       /\ (steel = [] \/ f_is_zero (py_sum (map (molar_amount float_table) steel)) = false))
  /\ (forall out, wt_to_at float_table steel = Ok out ->
                  out = weightToAtomic_spec float_table steel).
Proof. apply (X1_wt_to_at_returns_iff float float_arith float_table steel), steel_wf. Defined.

(** X2.  [at_to_wt] returns exactly when the composition passes the sum
    validation, every symbol is in the table, and the mass contributions do
    not total zero (or there is no element at all); it then returns a mapping
    with the keys of the input, in the same order, in which each value is
    (at% * mass) over the sum of all at% * mass, times 100.  A mass of zero
    does not make it fail. *)
Theorem X2_at_to_wt_returns_iff (F : Type) (A : Arith F) (table at_ : dict F) :
  dict_wf at_ ->
  ((exists out, at_to_wt table at_ = Ok out)
   <-> sums_to_100 at_ /\ all_known table at_
       /\ (at_ = [] \/ f_is_zero (py_sum (map (mass_contribution table) at_)) = false))
  /\ (forall out, at_to_wt table at_ = Ok out ->
        dict_keys out = dict_keys at_
        /\ out = map (fun it =>
                        (fst it,
                         f_mul (f_quot (f_mul (snd it) (molar_mass table (fst it)))
                                       (py_sum (map (fun e => f_mul (snd e) (molar_mass table (fst e))) at_)))
                               f_hundred)) at_).
Proof.
  intros Hwf.
  assert (Hinv : forall out, at_to_wt table at_ = Ok out ->
            sums_to_100 at_ /\ all_known table at_
            /\ (at_ = [] \/ f_is_zero (py_sum (map (mass_contribution table) at_)) = false)).
  { intros out Hout. unfold at_to_wt in Hout.
    destruct (check_input_composition at_ "at") as [[]|e] eqn:Hc; [|discriminate].
    apply check_ok_inv in Hc. simpl in Hout.
    destruct (at_to_wt_loop table at_ []) as [d|e] eqn:Hl; [|discriminate].
    pose proof (at_to_wt_loop_inv _ _ _ _ Hl) as Hk. simpl in Hout.
    rewrite (at_to_wt_loop_ok table at_ [] Hwf Hk) in Hl. injection Hl as <-.
    simpl in Hout. rewrite values_of_amounts in Hout.
    apply percent_comprehension_inv in Hout as [Hnil|Hz].
    - apply map_eq_nil in Hnil. auto.
    - auto. }
  assert (Hret : sums_to_100 at_ -> all_known table at_ ->
                 at_ = [] \/ f_is_zero (py_sum (map (mass_contribution table) at_)) = false ->
                 at_to_wt table at_ = Ok (atomicToWeight_spec table at_)).
  { intros Hs Hk [-> |Hz].
    - unfold at_to_wt. now rewrite (check_ok _ _ Hs).
    - now apply at_to_wt_spec. }
  split; [split|].
  - intros [out Hout]. now apply (Hinv out).
  - intros (Hs & Hk & Hz). eexists. now apply Hret.
  - intros out Hout. destruct (Hinv _ Hout) as (Hs & Hk & Hz).
    rewrite (Hret Hs Hk Hz) in Hout. injection Hout as <-.
    split; [apply shares_keys|reflexivity].
Qed.

(** The steel composition read as atomic percent, in binary64. *)
Lemma X2_at_to_wt_returns_iff_witness :
  exists out, at_to_wt float_table steel = Ok out /\ dict_keys out = ["Fe"; "C"].
Proof.
  destruct (X2_at_to_wt_returns_iff float float_arith float_table steel steel_wf)
    as [[_ Hret] Hout].
  destruct Hret as [out Hok].
  - split; [exact (proj1 steel_valid)|].
    split; [exact (proj1 (proj2 steel_valid))|].
    right. vm_compute. reflexivity.
  - exists out. split; [exact Hok|]. now destruct (Hout out Hok) as [-> _].
Defined.

(** X3.  The failures of the two conversions.  A composition that does not
    pass the sum validation is refused with the sum error carrying its total,
    whatever its symbols are.  Apart from that, [wt_to_at] can only fail with
    the missing element error, naming a symbol of the input that has no entry
    in the table, or with [ZeroDivisionError]; and so can [at_to_wt]. *)
Theorem X3_conversion_failures :
  forall (F : Type) (A : Arith F) (table c : dict F),
    (f_leb (f_abs (f_sub (py_sum (dict_values c)) f_hundred)) f_tol = false ->
     wt_to_at table c = Raise (SumError (py_sum (dict_values c)))
     /\ at_to_wt table c = Raise (SumError (py_sum (dict_values c))))
    /\ (forall e, wt_to_at table c = Raise e ->
          e = SumError (py_sum (dict_values c))
          \/ (exists k, e = MissingElement k /\ In k (dict_keys c)
                        /\ dict_mem table k = false)
          \/ e = ZeroDivisionError)
    /\ (forall e, at_to_wt table c = Raise e ->
          e = SumError (py_sum (dict_values c))
          \/ (exists k, e = MissingElement k /\ In k (dict_keys c)
                        /\ dict_mem table k = false)
          \/ e = ZeroDivisionError).
Proof.
  intros F A table c. split; [|split].
  - intros Hbad. unfold wt_to_at, at_to_wt.
    now rewrite !(check_raises _ _ Hbad).
  - intros e He. unfold wt_to_at in He.
    unfold check_input_composition in He.
    destruct (f_leb _ _); simpl in He; [|left; now injection He as <-].
    destruct (wt_to_at_loop table c []) as [d|e'] eqn:Hl; simpl in He.
    + right. right. now apply (percent_comprehension_raises _ _ _ _ He).
    + injection He as <-. right.
      destruct (wt_to_at_loop_raises _ _ _ _ Hl) as [Hmiss| ->]; auto.
  - intros e He. unfold at_to_wt in He.
    unfold check_input_composition in He.
    destruct (f_leb _ _); simpl in He; [|left; now injection He as <-].
    destruct (at_to_wt_loop table c []) as [d|e'] eqn:Hl; simpl in He.
    + right. right. now apply (percent_comprehension_raises _ _ _ _ He).
    + injection He as <-. right. left. now apply (at_to_wt_loop_raises _ _ _ _ Hl).
Qed.

(** X4.  A mass of zero in the table (the placeholder the generator of the
    table writes for an element without mass data) makes [wt_to_at] fail with
    [ZeroDivisionError] on every valid composition in which the symbols
    before that element are known with non-zero masses. *)
Theorem X4_zero_mass_divides (F : Type) (A : Arith F) (table pre post : dict F)
  (k : string) (v m : F) :
  sums_to_100 (pre ++ (k, v) :: post) ->
  all_known table pre -> masses_nonzero table pre ->
  dict_get table k = Some m -> f_is_zero m = true ->
  wt_to_at table (pre ++ (k, v) :: post) = Raise ZeroDivisionError.
Proof.
  intros Hsum Hk Hm Hget Hz. unfold wt_to_at. rewrite (check_ok _ _ Hsum). simpl.
  now rewrite (wt_to_at_loop_zero_mass table pre post [] k v m).
Qed.

(** With Og at mass 0.0, [{Fe: 50.0, Og: 50.0}] cannot be converted from
    weight percent; read as atomic percent it is converted. *)
Lemma X4_zero_mass_divides_witness :
  wt_to_at placeholder_table half_placeholder = Raise ZeroDivisionError
  /\ at_to_wt placeholder_table half_placeholder
     = Ok [("Fe", f_decimal 100 0); ("Og", f_decimal 0 0)].
Proof.
  split.
  - apply (X4_zero_mass_divides float float_arith placeholder_table
             [("Fe", f_decimal 500 1)] [] "Og" (f_decimal 500 1) (f_decimal 0 1)).
    + vm_compute. reflexivity.
    + each_key.
    + each_key.
    + reflexivity.
    + vm_compute. reflexivity.
  - vm_compute. reflexivity.
Defined.

(** * Further properties in exact arithmetic *)

Local Open Scope R_scope.

Lemma py_sum_ge_term {A : Type} (f : A -> R) (l : list A) :
  (forall a, In a l -> 0 <= f a) ->
  forall a, In a l -> f a <= py_sum (map f l).
Proof.
  induction l as [|b l IH]; intros Hf a Hin; [contradiction|].
  simpl. rewrite py_sum_cons.
  assert (Hb : 0 <= f b) by (apply Hf; now left).
  assert (Hrest : 0 <= py_sum (map f l))
    by (apply py_sum_nonneg; intros x Hx; apply Hf; now right).
  destruct Hin as [-> |Hin]; [lra|].
  assert (f a <= py_sum (map f l))
    by (apply IH; [intros x Hx; apply Hf; now right|exact Hin]).
  lra.
Qed.

Lemma percent_of_bounds (total x : R) :
  0 < total -> 0 <= x <= total -> 0 <= percent_of total x <= 100.
Proof.
  intros HT Hx. unfold percent_of. destruct real_constants as (_ & -> & _).
  real_ops. set (q := x / total).
  assert (Hq : q * total = x) by (unfold q; field; lra).
  assert (0 <= q <= 1) by (split; nra).
  lra.
Qed.

Lemma shares_bounds (amount : string * R -> R) (c : dict R) :
  (forall it, In it c -> 0 <= amount it) -> 0 < py_sum (map amount c) ->
  Forall (fun x => 0 <= x <= 100) (dict_values (shares amount c)).
Proof.
  intros Hnn HT. unfold shares. rewrite values_of_amounts.
  apply Forall_map, Forall_forall. intros it Hin.
  apply percent_of_bounds; [exact HT|]. split; [now apply Hnn|].
  now apply (py_sum_ge_term amount c Hnn).
Qed.

(** X5.  In exact arithmetic, for a composition with non-negative values
    that passes the sum validation and whose symbols have strictly positive
    masses, both conversions return and every value they return lies
    between 0 and 100. *)
Theorem X5_outputs_are_percentages (table c : dict R) :
  dict_wf c ->
  Forall (fun v => 0 <= v) (dict_values c) ->
  sums_to_100 c ->
  all_known table c ->
  Forall (fun k => 0 < molar_mass table k) (dict_keys c) ->
  exists a w,
    wt_to_at table c = Ok a /\ at_to_wt table c = Ok w
    /\ Forall (fun x => 0 <= x <= 100) (dict_values a)
    /\ Forall (fun x => 0 <= x <= 100) (dict_values w).
Proof.
  intros Hwf Hnn Hsum Hk Hpos.
  pose proof (positive_masses_nonzero _ _ Hpos) as Hm.
  destruct (nonneg_totals_positive _ _ Hnn Hsum Hpos) as [Hmol Hmass].
  rewrite Forall_forall in Hnn, Hpos.
  exists (weightToAtomic_spec table c), (atomicToWeight_spec table c).
  split; [apply wt_to_at_spec; try assumption; apply real_is_zero_false; lra|].
  split; [apply at_to_wt_spec; try assumption; apply real_is_zero_false; lra|].
  split.
  - apply shares_bounds; [|exact Hmol]. intros it Hin. real_ops.
    apply Rmult_le_pos; [apply Hnn; now apply in_dict_values|].
    apply Rlt_le, Rinv_0_lt_compat, Hpos. now apply in_dict_keys.
  - apply shares_bounds; [|exact Hmass]. intros it Hin. real_ops.
    apply Rmult_le_pos; [apply Hnn; now apply in_dict_values|].
    apply Rlt_le, Hpos. now apply in_dict_keys.
Qed.

Lemma X5_outputs_are_percentages_witness :
  exists a w,
    wt_to_at real_table real_steel = Ok a /\ at_to_wt real_table real_steel = Ok w
    /\ Forall (fun x => 0 <= x <= 100) (dict_values a)
    /\ Forall (fun x => 0 <= x <= 100) (dict_values w).
Proof.
  apply (X5_outputs_are_percentages real_table real_steel); apply real_steel_valid.
Defined.

(** The total the second conversion of a round trip divides by. *)
Lemma shares_back_total_nonzero (w w' : string -> R) (c : dict R) :
  (forall it, In it c -> w (fst it) * w' (fst it) = 1) ->
  py_sum (map (fun it => snd it * w (fst it)) c) <> 0 ->
  py_sum (dict_values c) <> 0 ->
  py_sum (map (fun it => snd it * w' (fst it))
              (shares (fun it => snd it * w (fst it)) c)) <> 0.
Proof.
  intros Hw HT HS. rewrite (shares_back_total w w' c Hw HT).
  apply Rmult_integral_contrapositive_currified; [|exact HS].
  unfold Rdiv. apply Rmult_integral_contrapositive_currified; [lra|].
  now apply Rinv_neq_0_compat.
Qed.

Lemma molar_shares_mass_total (table c : dict R) :
  sums_to_100 c -> masses_nonzero table c ->
  py_sum (map (molar_amount table) c) <> 0 ->
  py_sum (map (mass_contribution table) (weightToAtomic_spec table c)) <> 0.
Proof.
  intros Hsum Hm HT. pose proof (real_total_positive _ Hsum) as HS.
  apply (shares_back_total_nonzero (fun k => / molar_mass table k) (molar_mass table) c).
  - intros it Hin. apply Rinv_l. now apply (masses_nonzero_real table c).
  - exact HT.
  - lra.
Qed.

Lemma mass_shares_molar_total (table c : dict R) :
  sums_to_100 c -> masses_nonzero table c ->
  py_sum (map (mass_contribution table) c) <> 0 ->
  py_sum (map (molar_amount table) (atomicToWeight_spec table c)) <> 0.
Proof.
  intros Hsum Hm HT. pose proof (real_total_positive _ Hsum) as HS.
  apply (shares_back_total_nonzero (molar_mass table) (fun k => / molar_mass table k) c).
  - intros it Hin. apply Rinv_r. now apply (masses_nonzero_real table c).
  - exact HT.
  - lra.
Qed.

(** X6.  In exact arithmetic the two conversions undo each other on what they
    return: if [wt_to_at] turns a composition into [a], then [at_to_wt]
    accepts [a] and [wt_to_at] turns its result back into [a] exactly; and
    the same with the two conversions exchanged. *)
Theorem X6_inverse_on_outputs (table c : dict R) :
  dict_wf c -> sums_to_100 c -> all_known table c -> masses_nonzero table c ->
  (py_sum (map (molar_amount table) c) <> 0 ->
   exists a w, wt_to_at table c = Ok a /\ at_to_wt table a = Ok w
               /\ wt_to_at table w = Ok a)
  /\ (py_sum (map (mass_contribution table) c) <> 0 ->
      exists w a, at_to_wt table c = Ok w /\ wt_to_at table w = Ok a
                  /\ at_to_wt table a = Ok w).
Proof.
  intros Hwf Hsum Hk Hm. split; intros HT.
  - destruct (shares_valid table (molar_amount table) c Hwf Hk HT) as (Hwf' & Hsum' & Hk').
    pose proof (masses_nonzero_shares table (molar_amount table) c Hm) as Hm'.
    destruct (at_then_wt table (weightToAtomic_spec table c) Hwf' Hsum' Hk' Hm'
                (molar_shares_mass_total table c Hsum Hm HT)) as [Hat Hback].
    rewrite rescaled_exact in Hback by now apply shares_values_sum.
    exists (weightToAtomic_spec table c),
      (atomicToWeight_spec table (weightToAtomic_spec table c)).
    split; [|split; assumption].
    apply wt_to_at_spec; try assumption. now apply real_is_zero_false.
  - destruct (shares_valid table (mass_contribution table) c Hwf Hk HT) as (Hwf' & Hsum' & Hk').
    pose proof (masses_nonzero_shares table (mass_contribution table) c Hm) as Hm'.
    destruct (wt_then_at table (atomicToWeight_spec table c) Hwf' Hsum' Hk' Hm'
                (mass_shares_molar_total table c Hsum Hm HT)) as [Hwt Hback].
    rewrite rescaled_exact in Hback by now apply shares_values_sum.
    exists (atomicToWeight_spec table c),
      (weightToAtomic_spec table (atomicToWeight_spec table c)).
    split; [|split; assumption].
    apply at_to_wt_spec; try assumption. now apply real_is_zero_false.
Qed.

Lemma X6_inverse_on_outputs_witness :
  (exists a w, wt_to_at real_table real_steel = Ok a /\ at_to_wt real_table a = Ok w
               /\ wt_to_at real_table w = Ok a)
  /\ (exists w a, at_to_wt real_table real_steel = Ok w /\ wt_to_at real_table w = Ok a
                  /\ at_to_wt real_table a = Ok w).
Proof.
  destruct (X6_inverse_on_outputs real_table real_steel) as [Hwt Hat];
    try apply real_steel_valid; try apply real_steel_totals.
  split; [apply Hwt | apply Hat]; apply real_steel_totals.
Defined.

Lemma scaled_keys (factor : R) (c : dict R) : dict_keys (scaled factor c) = dict_keys c.
Proof. unfold scaled. apply keys_of_amounts. Qed.

Lemma shares_scaled (amount : string * R -> R) (factor : R) (c : dict R) :
  (forall it, amount (fst it, factor * snd it) = factor * amount it) ->
  factor <> 0 -> py_sum (map amount c) <> 0 ->
  py_sum (map amount (scaled factor c)) = factor * py_sum (map amount c)
  /\ shares amount (scaled factor c) = shares amount c.
Proof.
  intros Hlin Hf HT.
  assert (Htot : py_sum (map amount (scaled factor c)) = factor * py_sum (map amount c)).
  { unfold scaled. rewrite map_map. apply py_sum_scaled. intros it _. apply Hlin. }
  split; [exact Htot|].
  unfold shares. rewrite Htot. unfold scaled. rewrite map_map.
  apply map_ext. intros it. cbn [fst snd]. f_equal. rewrite Hlin.
  unfold percent_of. destruct real_constants as (_ & -> & _). real_ops.
  field. split; assumption.
Qed.

(** X7.  In exact arithmetic only the proportions of a composition matter:
    two valid compositions that differ by a common factor are converted to
    the same result, in both directions. *)
Theorem X7_scale_invariance (table c : dict R) (factor : R) :
  dict_wf c -> sums_to_100 c -> sums_to_100 (scaled factor c) ->
  all_known table c -> masses_nonzero table c -> factor <> 0 ->
  (py_sum (map (molar_amount table) c) <> 0 ->
   wt_to_at table (scaled factor c) = wt_to_at table c)
  /\ (py_sum (map (mass_contribution table) c) <> 0 ->
      at_to_wt table (scaled factor c) = at_to_wt table c).
Proof.
  intros Hwf Hsum Hsum' Hk Hm Hf.
  assert (Hwf' : dict_wf (scaled factor c)) by (unfold dict_wf; now rewrite scaled_keys).
  assert (Hk' : all_known table (scaled factor c))
    by (unfold all_known; now rewrite scaled_keys).
  assert (Hm' : masses_nonzero table (scaled factor c))
    by (unfold masses_nonzero; now rewrite scaled_keys).
  split; intros HT.
  - destruct (shares_scaled (molar_amount table) factor c) as [Htot Hsh];
      [intros it; real_ops; cbn [fst snd]; unfold Rdiv; ring|exact Hf|exact HT|].
    rewrite (wt_to_at_spec table c), (wt_to_at_spec table (scaled factor c));
      try assumption; try (apply real_is_zero_false; assumption).
    + unfold weightToAtomic_spec. now rewrite Hsh.
    + apply real_is_zero_false. rewrite Htot.
      now apply Rmult_integral_contrapositive_currified.
  - destruct (shares_scaled (mass_contribution table) factor c) as [Htot Hsh];
      [intros it; real_ops; cbn [fst snd]; ring|exact Hf|exact HT|].
    rewrite (at_to_wt_spec table c), (at_to_wt_spec table (scaled factor c));
      try assumption; try (apply real_is_zero_false; assumption).
    + unfold atomicToWeight_spec. now rewrite Hsh.
    + apply real_is_zero_false. rewrite Htot.
      now apply Rmult_integral_contrapositive_currified.
Qed.

(** The steel composition and the same with every value 0.005 percent
    higher, which sums to 100.005. *)
Lemma X7_scale_invariance_witness :
  wt_to_at real_table (scaled (100005 / 100000) real_steel)
  = wt_to_at real_table real_steel
  /\ at_to_wt real_table (scaled (100005 / 100000) real_steel)
     = at_to_wt real_table real_steel.
Proof.
  destruct (X7_scale_invariance real_table real_steel (100005 / 100000))
    as [Hwt Hat]; try apply real_steel_valid; try apply real_steel_totals.
  - apply real_sums_to_100. rewrite real_py_sum. simpl.
    unfold real_of_decimal. simpl. apply Rabs_le. lra.
  - lra.
  - split; [apply Hwt | apply Hat]; apply real_steel_totals.
Defined.

(** ** The built-in table *)

Lemma positive_entries_lookup (table : dict R) (k : string) :
  Forall (fun kv => 0 < snd kv) table -> dict_mem table k = true ->
  0 < molar_mass table k.
Proof.
  unfold dict_mem, molar_mass. induction table as [|[k' m] table IH]; simpl.
  - discriminate.
  - intros Hpos. inversion Hpos as [|? ? Hm Hrest]; subst.
    destruct (String.eqb k' k); [intros _; exact Hm|now apply IH].
Qed.

Lemma fallback_positive : Forall (fun kv => 0 < snd kv) (@fallback_masses R _).
Proof.
  unfold fallback_masses. simpl. unfold real_of_decimal. simpl.
  repeat constructor; simpl; lra.
Qed.

Lemma fallback_distinct (F : Type) (A : Arith F) : dict_wf (@fallback_masses F A).
Proof. distinct_keys. Qed.

(** X8.  Without the JSON resource the table is the built-in one: thirty
    distinct symbols, H to Zn.  With it, in exact arithmetic, every
    composition over those symbols with non-negative values that passes the
    sum validation is converted, in both directions; in binary64 none of its
    masses is zero. *)
Theorem X8_fallback_table_converts :
  (forall (F : Type) (A : Arith F),
      get_element_atomic_masses Absent = Ok (@fallback_masses F A)
      /\ dict_wf (@fallback_masses F A)
      /\ List.length (@fallback_masses F A) = 30%nat)
  /\ (forall c : dict R,
         dict_wf c -> Forall (fun v => 0 <= v) (dict_values c) ->
         sums_to_100 c -> all_known fallback_masses c ->
         (exists out, wt_to_at fallback_masses c = Ok out)
         /\ (exists out, at_to_wt fallback_masses c = Ok out))
  /\ forallb (fun kv => negb (PrimFloat.is_zero (snd kv))) (@fallback_masses float _)
     = true.
Proof.
  split; [|split].
  - intros F A. split; [reflexivity|]. split; [apply fallback_distinct|reflexivity].
  - intros c Hwf Hnn Hsum Hk.
    assert (Hpos : Forall (fun k => 0 < molar_mass fallback_masses k) (dict_keys c)).
    { unfold all_known in Hk. rewrite Forall_forall in Hk |- *. intros k Hin.
      apply positive_entries_lookup; [apply fallback_positive|now apply Hk]. }
    pose proof (positive_masses_nonzero _ _ Hpos) as Hm.
    destruct (nonneg_totals_positive _ _ Hnn Hsum Hpos) as [Hmol Hmass].
    split; eexists.
    + apply wt_to_at_spec; try assumption. apply real_is_zero_false. lra.
    + apply at_to_wt_spec; try assumption. apply real_is_zero_false. lra.
  - vm_compute. reflexivity.
Qed.

Local Close Scope R_scope.

(** * Further properties of the parser *)

Lemma in_slice {A : Type} (x : A) (n k : nat) (l : list A) :
  In x (firstn n (skipn k l)) -> In x l.
Proof.
  intros Hin. rewrite <- (firstn_skipn k l). apply in_or_app. right.
  rewrite <- (firstn_skipn n (skipn k l)). apply in_or_app. now left.
Qed.

Lemma symbol_has_letter (sym : text) :
  symbolb sym = true -> exists a, In a sym /\ is_alpha a = true.
Proof.
  destruct sym as [|a [|b [|]]]; simpl; try discriminate.
  - intros Ha. exists a. auto.
  - intros Hab. apply andb_prop in Hab as [Ha _]. exists a. auto.
Qed.

Lemma number_has_digit (num : text) :
  numberb num = true -> exists d, In d num /\ is_digit d = true.
Proof.
  unfold numberb. destruct (span_split is_digit num) as [Hsplit Hall].
  destruct (span is_digit num) as [ip r]. simpl in *.
  destruct ip as [|d ds]; [discriminate|]. intros _.
  simpl in Hall. apply andb_prop in Hall as [Hd _].
  exists d. rewrite Hsplit. simpl. auto.
Qed.

Lemma link_has_separator (link : text) :
  linkb link = true -> exists c, In c link /\ is_separator c = true.
Proof.
  intros Hl. apply linkb_parts in Hl as (q & w1 & sep & w2 & -> & _ & _ & Hsep & _).
  exists sep. split; [|exact Hsep].
  apply in_or_app. right. apply in_or_app. right. simpl. auto.
Qed.

Lemma forallb_negb_in (p : ascii -> bool) (s : text) (c : ascii) :
  forallb (fun x => negb (p x)) s = true -> In c s -> p c = true -> False.
Proof.
  intros Hall Hin Hp. rewrite forallb_forall in Hall.
  specialize (Hall c Hin). rewrite Hp in Hall. discriminate.
Qed.

(** X10.  A text that holds no letter, or no separator [:] or [=], or no
    digit, holds no token: the scan refuses it with the format error, and so
    does the parser unless the literal stage returns a dict. *)
Theorem X10_scan_needs_letter_separator_digit (F : Type) (A : Arith F)
  (user_str : text) :
  forallb (fun c => negb (is_alpha c)) user_str = true
  \/ forallb (fun c => negb (is_separator c)) user_str = true
  \/ forallb (fun c => negb (is_digit c)) user_str = true ->
  findall pattern user_str = []
  /\ @token_scan_stage F A user_str = Raise UnrecognizedFormat
  /\ (forall py_eval : text -> option (pyval F),
         literal_stage py_eval user_str = None ->
         parse_composition_input py_eval user_str = Raise UnrecognizedFormat).
Proof.
  intros Hnone.
  assert (Hfind : finditer pattern user_str = []).
  { pose proof (finditer_token_form user_str) as Hform.
    destruct (finditer pattern user_str) as [|m ms]; [reflexivity|exfalso].
    inversion Hform as [|? ? (lead & sym & link & num & Hslice & _ & _ & Hs & Hl & Hn & _) _];
      subst.
    assert (Hin : forall c, In c (lead ++ sym ++ link ++ num) -> In c user_str)
      by (intros c Hc; rewrite <- Hslice in Hc; now apply in_slice in Hc).
    destruct Hnone as [Hno|[Hno|Hno]].
    - destruct (symbol_has_letter _ Hs) as (a & Ha & Hp).
      apply (forallb_negb_in _ _ a Hno); [|exact Hp].
      apply Hin. apply in_or_app. right. apply in_or_app. now left.
    - destruct (link_has_separator _ Hl) as (c & Hc & Hp).
      apply (forallb_negb_in _ _ c Hno); [|exact Hp].
      apply Hin. apply in_or_app. right. apply in_or_app. right.
      apply in_or_app. now left.
    - destruct (number_has_digit _ Hn) as (d & Hd & Hp).
      apply (forallb_negb_in _ _ d Hno); [|exact Hp].
      apply Hin. apply in_or_app. right. apply in_or_app. right.
      apply in_or_app. now right. }
  assert (Hall : findall pattern user_str = []) by (unfold findall; now rewrite Hfind).
  split; [exact Hall|].
  assert (Hscan : @token_scan_stage F A user_str = Raise UnrecognizedFormat)
    by (rewrite token_scan_stage_collect; now rewrite Hall).
  split; [exact Hscan|].
  intros py_eval Hlit. unfold parse_composition_input. now rewrite Hlit.
Qed.

(** [gibberish] has no separator. *)
Lemma X10_scan_needs_letter_separator_digit_witness :
  findall pattern gibberish = []
  /\ @token_scan_stage float _ gibberish = Raise UnrecognizedFormat
  /\ (forall py_eval : text -> option (pyval float),
         literal_stage py_eval gibberish = None ->
         parse_composition_input py_eval gibberish = Raise UnrecognizedFormat).
Proof.
  apply (X10_scan_needs_letter_separator_digit float float_arith gibberish).
  right. left. vm_compute. reflexivity.
Defined.

(** ** The number is read to its end *)

(** X11.  The scan reads a number to its end.  The second group of every
    reported match is the longest decimal that can be read where it starts;
    so the character that follows the match, if there is one, is not a
    digit, and it is not a point when the number has none.  A value is never
    cut short: in [Fe: 12.50] the value is 12.50, never 12.5 or 12. *)
Theorem X11_number_read_to_its_end :
  forall (user_str : text),
    Forall (fun m =>
              (forall num' tail,
                  numberb num' = true ->
                  nth 1 (m_groups m) [] ++ skipn (m_stop m) user_str
                  = num' ++ tail ->
                  List.length num' <= List.length (nth 1 (m_groups m) []))
              /\ (forall c, nth_error user_str (m_stop m) = Some c ->
                            is_digit c = false
                            /\ (forallb is_digit (nth 1 (m_groups m) []) = true ->
                                is_dot c = false)))
           (finditer pattern user_str).
Proof.
  intros user_str.
  pose proof (finditer_number_maximal user_str) as Hmax.
  pose proof (scan_reported pattern (S (List.length user_str)) 0 user_str) as Hrep.
  pose proof (finditer_token_form user_str) as Hform.
  unfold finditer in *. rewrite Forall_forall in Hmax, Hrep, Hform |- *.
  intros m Hin. split; [exact (Hmax m Hin)|].
  intros c Hc.
  destruct (Hrep m Hin) as (i & Hstart & _ & _ & Hm).
  destruct (Hform m Hin) as (_ & sym & _ & num & _ & Hg & _ & _ & _ & Hnum & Hlt & _).
  destruct (skipn_head_nth_error _ _ _ Hc) as [rest Hrest].
  assert (Hnd : is_digit c = false).
  { apply match_here_rest in Hm. rewrite skipn_skipn in Hm.
    simpl in Hstart.
    replace (m_stop m - m_start m + i) with (m_stop m) in Hm by lia.
    now rewrite Hrest in Hm. }
  split; [exact Hnd|].
  rewrite Hg. simpl nth. intros Hall.
  destruct (is_dot c) eqn:Hdot; [exfalso|reflexivity].
  specialize (Hmax m Hin (num ++ [c]) rest).
  rewrite Hg, Hrest in Hmax. simpl nth in Hmax.
  rewrite length_app in Hmax. simpl in Hmax.
  assert (Hle : List.length num + 1 <= List.length num); [|lia].
  apply Hmax; [|now rewrite <- app_assoc].
  unfold numberb. rewrite (span_stop _ _ _ _ Hall Hnd).
  destruct num as [|d ds]; [discriminate|]. now rewrite Hdot.
Qed.

(** ** The mapping the scan returns *)

Lemma existsb_eqb_in (k : string) (seen : list string) :
  existsb (String.eqb k) seen = false -> ~ In k seen.
Proof.
  intros Hex Hin. assert (Ht : existsb (String.eqb k) seen = true).
  { apply existsb_exists. exists k. split; [exact Hin|apply String.eqb_refl]. }
  congruence.
Qed.

Lemma first_occurrences_facts (P : string -> Prop) (ks : list string) :
  forall seen,
    NoDup seen -> Forall P seen -> Forall P ks ->
    NoDup (first_occurrences ks seen)
    /\ Forall P (first_occurrences ks seen)
    /\ List.length (first_occurrences ks seen) <= List.length seen + List.length ks.
Proof.
  induction ks as [|k ks IH]; intros seen Hnd Hseen Hks; simpl.
  - repeat split; try assumption. lia.
  - inversion Hks as [|? ? Hk Hrest]; subst.
    destruct (existsb (String.eqb k) seen) eqn:Hex.
    + destruct (IH seen Hnd Hseen Hrest) as (H1 & H2 & H3). repeat split; try assumption. lia.
    + destruct (IH (seen ++ [k])) as (H1 & H2 & H3); try assumption.
      * apply NoDup_app; [exact Hnd|repeat constructor; intros []|].
        intros x Hx [<- |[]]. now apply (existsb_eqb_in _ _ Hex).
      * apply Forall_app. split; [exact Hseen|now constructor].
      * repeat split; try assumption. rewrite length_app in H3. simpl in H3. lia.
Qed.

Lemma collect_keys_facts {F : Type} `{Arith F} (user_str : text) :
  dict_wf (collect (findall pattern user_str))
  /\ Forall (fun k => symbolb (list_ascii_of_string k) = true)
            (dict_keys (collect (findall pattern user_str)))
  /\ List.length (collect (findall pattern user_str))
     <= List.length (findall pattern user_str).
Proof.
  unfold dict_wf, collect.
  rewrite (collect_into_keys (findall pattern user_str) []).
  destruct (first_occurrences_facts
              (fun k => symbolb (list_ascii_of_string k) = true)
              (map symbol_of (findall pattern user_str)) []) as (H1 & H2 & H3).
  - constructor.
  - constructor.
  - apply Forall_map. eapply Forall_impl; [|apply findall_pairs].
    intros m [Hs _]. unfold symbol_of.
    now rewrite list_ascii_of_string_of_list_ascii.
  - split; [exact H1|]. split; [exact H2|].
    rewrite length_map in H3. simpl in H3.
    replace (List.length (collect_into [] (findall pattern user_str)))
      with (List.length (dict_keys (collect_into [] (findall pattern user_str))))
      by (unfold dict_keys; apply length_map).
    now rewrite (collect_into_keys (findall pattern user_str) []).
Qed.

(** X12.  Whatever the text, the mapping the token scan collects is a proper
    dict whose keys are symbols of one or two letters, and it has at most as
    many entries as the scan found tokens. *)
Theorem X12_scan_mapping_keys :
  forall (F : Type) (A : Arith F) (user_str : text),
    dict_wf (@collect F A (findall pattern user_str))
    /\ Forall (fun k => symbolb (list_ascii_of_string k) = true)
              (dict_keys (@collect F A (findall pattern user_str)))
    /\ List.length (@collect F A (findall pattern user_str))
       <= List.length (findall pattern user_str).
Proof. intros F A user_str. apply collect_keys_facts. Qed.

Lemma digit_value_nonneg (c : ascii) : is_digit c = true -> (0 <= digit_value c)%Z.
Proof.
  unfold is_digit, in_range, digit_value. intros Hd.
  apply andb_prop in Hd as [Hlo _]. apply N.leb_le in Hlo. lia.
Qed.

Lemma Z_of_digits_nonneg (ds : text) :
  forallb is_digit ds = true -> (0 <= Z_of_digits ds)%Z.
Proof.
  unfold Z_of_digits.
  assert (Hgen : forall acc, (0 <= acc)%Z -> forallb is_digit ds = true ->
            (0 <= fold_left (fun acc c => 10 * acc + digit_value c) ds acc)%Z).
  { induction ds as [|d ds IH]; intros acc Hacc Hall; cbn [fold_left]; [exact Hacc|].
    cbn [forallb] in Hall. apply andb_prop in Hall as [Hd Hall].
    apply IH; [|exact Hall]. pose proof (digit_value_nonneg _ Hd). lia. }
  now apply Hgen.
Qed.

Lemma real_of_decimal_nonneg (z : Z) (k : nat) :
  (0 <= z)%Z -> (0 <= real_of_decimal z k)%R.
Proof.
  intros Hz. unfold real_of_decimal.
  assert (0 < IZR (10 ^ Z.of_nat k))%R
    by (apply IZR_lt; apply Z.pow_pos_nonneg; lia).
  apply Rmult_le_pos; [now apply IZR_le|].
  now apply Rlt_le, Rinv_0_lt_compat.
Qed.

Lemma decimal_value_nonneg (num : text) :
  numberb num = true -> (0 <= @decimal_value R _ num)%R.
Proof.
  unfold numberb, decimal_value.
  destruct (span_split is_digit num) as [_ Hint].
  destruct (span is_digit num) as [ip r]. simpl in Hint.
  destruct ip as [|d ds]; [discriminate|]. intros Hn.
  apply real_of_decimal_nonneg, Z_of_digits_nonneg.
  rewrite forallb_app, Hint. destruct r as [|c fp]; [reflexivity|].
  apply andb_prop in Hn as [_ Hfp]. exact Hfp.
Qed.

Lemma dict_set_values {V : Type} (P : V -> Prop) (d : dict V) (k : string) (v : V) :
  Forall P (dict_values d) -> P v -> Forall P (dict_values (dict_set d k v)).
Proof.
  intros Hd Hv. induction d as [|[k' v'] d IH]; simpl.
  - now constructor.
  - simpl in Hd. inversion Hd as [|? ? Hv' Hrest]; subst.
    destruct (String.eqb k' k); simpl; constructor; auto.
Qed.

Lemma collect_into_values {F : Type} `{Arith F} (P : F -> Prop)
  (ms : list (text * text)) :
  Forall (fun m => P (decimal_value (snd m))) ms ->
  forall d, Forall P (dict_values d) -> Forall P (dict_values (collect_into d ms)).
Proof.
  induction 1 as [|m ms Hm _ IH]; intros d Hd; [exact Hd|].
  rewrite collect_into_cons. apply IH. now apply dict_set_values.
Qed.

(** X13.  In exact arithmetic the values the token scan collects are never
    negative.  So a composition that comes from the scan and passes the sum
    validation, with all its symbols in a table of strictly positive masses,
    is always converted, in both directions: for such input no division by
    zero can happen. *)
Theorem X13_scanned_input_converts :
  forall (table : dict R) (user_str : text),
    Forall (fun v => (0 <= v)%R)
           (dict_values (@collect R _ (findall pattern user_str)))
    /\ (sums_to_100 (@collect R _ (findall pattern user_str)) ->
        all_known table (@collect R _ (findall pattern user_str)) ->
        Forall (fun k => (0 < molar_mass table k)%R)
               (dict_keys (@collect R _ (findall pattern user_str))) ->
        (exists out, wt_to_at table (@collect R _ (findall pattern user_str)) = Ok out)
        /\ (exists out, at_to_wt table (@collect R _ (findall pattern user_str)) = Ok out)).
Proof.
  intros table user_str.
  assert (Hnn : Forall (fun v => (0 <= v)%R)
                  (dict_values (@collect R _ (findall pattern user_str)))).
  { apply collect_into_values; [|constructor].
    eapply Forall_impl; [|apply findall_pairs].
    intros m [_ Hn]. now apply decimal_value_nonneg. }
  split; [exact Hnn|]. intros Hsum Hk Hpos.
  destruct (@collect_keys_facts R _ user_str) as (Hwf & _).
  pose proof (positive_masses_nonzero _ _ Hpos) as Hm.
  destruct (nonneg_totals_positive _ _ Hnn Hsum Hpos) as [Hmol Hmass].
  split; eexists.
  - apply wt_to_at_spec; try assumption. apply real_is_zero_false. lra.
  - apply at_to_wt_spec; try assumption. apply real_is_zero_false. lra.
Qed.

(** * The generator of the table *)

Section DictSetInvariants.
Context {V : Type}.

Lemma dict_set_wf (d : dict V) (k : string) (v : V) :
  dict_wf d -> dict_wf (dict_set d k v).
Proof.
  unfold dict_wf. intros Hnd. rewrite dict_keys_set.
  destruct (dict_mem d k) eqn:Hmem; [exact Hnd|].
  apply NoDup_app; [exact Hnd|repeat constructor; intros []|].
  intros x Hx [Heq|[]]. subst x.
  assert (Hnone : dict_get d k = None)
    by (unfold dict_mem in Hmem; now destruct (dict_get d k)).
  now apply dict_get_none in Hnone.
Qed.

Lemma dict_set_length (d : dict V) (k : string) (v : V) :
  List.length (dict_set d k v) <= S (List.length d).
Proof.
  induction d as [|[k' v'] d IH]; simpl; [lia|].
  destruct (String.eqb k' k); simpl; lia.
Qed.

Lemma dict_get_set (d : dict V) (k k0 : string) (v : V) :
  dict_get (dict_set d k v) k0 = if String.eqb k k0 then Some v else dict_get d k0.
Proof.
  destruct (String.eqb_spec k k0) as [-> |Hne].
  - apply dict_get_set_same.
  - now apply dict_get_set_other.
Qed.
End DictSetInvariants.

Section GeneratorFacts.
Context {F : Type} `{Arith F}.
Variable element : nat -> option (@element_data F).

(** one turn of the loop *)
Lemma generate_loop_step (z : nat) (rest : list nat) (d : dict F) :
  generate_loop element (z :: rest) d
  = generate_loop element rest
      (match entry_of element z with
       | Some (s, m) => dict_set d s m
       | None => d
       end).
Proof.
  simpl. unfold entry_of.
  destruct (element z) as [el|]; [|reflexivity].
  now destruct (valid_mass el).
Qed.

Lemma generate_loop_app (zs1 zs2 : list nat) :
  forall d, generate_loop element (zs1 ++ zs2) d
            = generate_loop element zs2 (generate_loop element zs1 d).
Proof.
  induction zs1 as [|z zs1 IH]; intros d; [reflexivity|].
  rewrite <- app_comm_cons, !generate_loop_step. apply IH.
Qed.

Lemma generate_loop_wf (zs : list nat) :
  forall d, dict_wf d -> dict_wf (generate_loop element zs d).
Proof.
  induction zs as [|z zs IH]; intros d Hd; [exact Hd|].
  rewrite generate_loop_step. apply IH.
  destruct (entry_of element z) as [[s m]|]; [now apply dict_set_wf|exact Hd].
Qed.

Lemma generate_loop_length (zs : list nat) :
  forall d, List.length (generate_loop element zs d)
            <= List.length d + List.length zs.
Proof.
  induction zs as [|z zs IH]; intros d; [simpl; lia|].
  rewrite generate_loop_step. etransitivity; [apply IH|].
  destruct (entry_of element z) as [[s m]|]; simpl; [|lia].
  pose proof (dict_set_length d s m). lia.
Qed.

Lemma generate_loop_untouched (zs : list nat) (s : string) :
  (forall z m, In z zs -> entry_of element z <> Some (s, m)) ->
  forall d, dict_get (generate_loop element zs d) s = dict_get d s.
Proof.
  induction zs as [|z zs IH]; intros Hno d; [reflexivity|].
  rewrite generate_loop_step, IH by (intros z' m' Hin; apply Hno; now right).
  destruct (entry_of element z) as [[s' m']|] eqn:He; [|reflexivity].
  apply dict_get_set_other. intros ->. apply (Hno z m'); [now left|exact He].
Qed.

Lemma generate_loop_source (zs : list nat) (s : string) (m : F) :
  forall d, dict_get (generate_loop element zs d) s = Some m ->
            dict_get d s = Some m
            \/ exists z, In z zs /\ entry_of element z = Some (s, m).
Proof.
  induction zs as [|z zs IH]; intros d Hget; [now left|].
  rewrite generate_loop_step in Hget.
  destruct (IH _ Hget) as [Hd|(z' & Hin & He)].
  - destruct (entry_of element z) as [[s' m']|] eqn:He; [|now left].
    rewrite dict_get_set in Hd. destruct (String.eqb_spec s' s) as [-> |Hne].
    + injection Hd as ->. right. exists z. split; [now left|exact He].
    + now left.
  - right. exists z'. split; [now right|exact He].
Qed.
End GeneratorFacts.

(** X14.  The table the generator writes maps the symbol of an element to
    the mass found for it, whenever the element of atomic number z (between
    1 and 118) loads, its mass is found without raising (a mass number that
    is missing where one is needed, or too large for a float, raises) and no
    element of a higher atomic number writes the same symbol. *)
Theorem X14_generated_entry (F : Type) (A : Arith F)
  (element : nat -> option (@element_data F)) (z : nat) (s : string) (m : F) :
  1 <= z <= 118 ->
  entry_of element z = Some (s, m) ->
  (forall z' m', z < z' <= 118 -> entry_of element z' <> Some (s, m')) ->
  dict_get (generate_and_save_data element) s = Some m.
Proof.
  intros Hz He Hlater. unfold generate_and_save_data.
  assert (Hseq : seq 1 118 = seq 1 (z - 1) ++ z :: seq (S z) (118 - z)).
  { replace 118 with ((z - 1) + S (118 - z)) at 1 by lia.
    rewrite seq_app. f_equal. now replace (1 + (z - 1)) with z by lia. }
  rewrite Hseq, generate_loop_app, generate_loop_step, He.
  rewrite generate_loop_untouched.
  - apply dict_get_set_same.
  - intros z' m' Hin. apply in_seq in Hin. apply Hlater. lia.
Qed.

(** In the library of five elements, Li has the interval [6.938, 6.997]:
    its entry is the lower end. *)
Lemma X14_generated_entry_witness :
  dict_get (generate_and_save_data five_elements) "Li" = Some (f_decimal 6938 3).
Proof.
  apply (X14_generated_entry float float_arith five_elements 3).
  - lia.
  - reflexivity.
  - intros z' m' Hz'. unfold entry_of.
    destruct z' as [|[|[|[|[|[|z']]]]]]; try lia; simpl; discriminate.
Defined.

(** X15.  Whatever the library answers, the generated table is a proper dict
    of at most 118 entries, and each of its entries is the symbol and the mass
    of an element between 1 and 118 that loaded with a mass: an element whose
    lookup or whose mass raises leaves no entry and does not stop the loop.
    With the library of five elements the table is H, He, Li and B, Be being
    skipped and B carrying the placeholder 0.0.  With a library in which the
    mass numbers of He and Li are 10^400, too large for a float, the
    conversion of the mass number raises and the table is H alone. *)
Theorem X15_generated_table :
  (forall (F : Type) (A : Arith F) (element : nat -> option (@element_data F)),
      dict_wf (generate_and_save_data element)
      /\ List.length (generate_and_save_data element) <= 118
      /\ (forall s m, dict_get (generate_and_save_data element) s = Some m ->
                      exists z, 1 <= z <= 118 /\ entry_of element z = Some (s, m)))
  /\ generate_and_save_data five_elements
     = [("H", f_decimal 1008 3); ("He", f_decimal 4 0);
        ("Li", f_decimal 6938 3); ("B", f_decimal 0 1)]
  /\ generate_and_save_data overflowing_elements = [("H", f_decimal 1008 3)].
Proof.
  split.
  - intros F A element. unfold generate_and_save_data. split; [|split].
    + apply generate_loop_wf. constructor.
    + pose proof (generate_loop_length element (seq 1 118) []) as Hlen.
      rewrite length_seq in Hlen. exact Hlen.
    + intros s m Hget.
      destruct (generate_loop_source element _ _ _ _ Hget) as [Hnil|(z & Hin & He)];
        [discriminate|].
      exists z. apply in_seq in Hin. split; [lia|exact He].
  - split; vm_compute; reflexivity.
Qed.

(** * The order of the elements *)

Local Open Scope R_scope.

Lemma py_sum_permutation (xs ys : list R) :
  Permutation xs ys -> @py_sum R _ xs = py_sum ys.
Proof.
  induction 1 as [|x xs ys _ IH|x y xs|xs ys zs _ IH1 _ IH2].
  - reflexivity.
  - now rewrite !py_sum_cons, IH.
  - rewrite !py_sum_cons. lra.
  - now rewrite IH1.
Qed.

(** X16.  In exact arithmetic the order in which a composition lists its
    elements does not change what each element is converted to: listing the
    same items in another order gives the same results in that other
    order. *)
Theorem X16_order_of_elements (table c c' : dict R) :
  Permutation c c' ->
  dict_wf c -> sums_to_100 c -> all_known table c -> masses_nonzero table c ->
  (py_sum (map (molar_amount table) c) <> 0 ->
   exists out out', wt_to_at table c = Ok out /\ wt_to_at table c' = Ok out'
                    /\ Permutation out out')
  /\ (py_sum (map (mass_contribution table) c) <> 0 ->
      exists out out', at_to_wt table c = Ok out /\ at_to_wt table c' = Ok out'
                       /\ Permutation out out').
Proof.
  intros Hperm Hwf Hsum Hk Hm.
  assert (Hwf' : dict_wf c')
    by (unfold dict_wf, dict_keys in *; eapply Permutation_NoDup;
        [apply Permutation_map; exact Hperm|exact Hwf]).
  assert (Hsum' : sums_to_100 c').
  { apply real_sums_to_100. apply real_sums_to_100 in Hsum.
    unfold dict_values in *.
    now rewrite <- (py_sum_permutation _ _ (Permutation_map snd Hperm)). }
  assert (Hk' : all_known table c')
    by (unfold all_known, dict_keys in *; eapply Permutation_Forall;
        [apply Permutation_map; exact Hperm|exact Hk]).
  assert (Hm' : masses_nonzero table c')
    by (unfold masses_nonzero, dict_keys in *; eapply Permutation_Forall;
        [apply Permutation_map; exact Hperm|exact Hm]).
  assert (Hshares : forall amount : string * R -> R,
            Permutation (shares amount c) (shares amount c')).
  { intros amount. unfold shares.
    rewrite <- (py_sum_permutation _ _ (Permutation_map amount Hperm)).
    now apply Permutation_map. }
  split; intros HT.
  - exists (weightToAtomic_spec table c), (weightToAtomic_spec table c').
    split; [apply wt_to_at_spec; try assumption; now apply real_is_zero_false|].
    split; [|apply Hshares].
    apply wt_to_at_spec; try assumption. apply real_is_zero_false.
    now rewrite <- (py_sum_permutation _ _ (Permutation_map (molar_amount table) Hperm)).
  - exists (atomicToWeight_spec table c), (atomicToWeight_spec table c').
    split; [apply at_to_wt_spec; try assumption; now apply real_is_zero_false|].
    split; [|apply Hshares].
    apply at_to_wt_spec; try assumption. apply real_is_zero_false.
    now rewrite <- (py_sum_permutation _ _ (Permutation_map (mass_contribution table) Hperm)).
Qed.

(** The steel composition with carbon listed first. *)
Lemma X16_order_of_elements_witness :
  (exists out out',
      wt_to_at real_table real_steel = Ok out
      /\ wt_to_at real_table [("C", f_decimal 20 1); ("Fe", f_decimal 980 1)] = Ok out'
      /\ Permutation out out')
  /\ (exists out out',
         at_to_wt real_table real_steel = Ok out
         /\ at_to_wt real_table [("C", f_decimal 20 1); ("Fe", f_decimal 980 1)] = Ok out'
         /\ Permutation out out').
Proof.
  destruct (X16_order_of_elements real_table real_steel
              [("C", f_decimal 20 1); ("Fe", f_decimal 980 1)]) as [Hwt Hat];
    try apply real_steel_valid; try apply real_steel_totals.
  - apply perm_swap.
  - split; [apply Hwt | apply Hat]; apply real_steel_totals.
Defined.

Local Close Scope R_scope.
